(** * The AI debugger of [CodeAnalyzer.tsx]: prompt, dispatch, extraction, validation

    A shallow embedding of the debugging flow of
    [src/components/CodeAnalyzer.tsx]: the model catalog [AI_MODELS], the
    four provider handlers, [extractJsonFromText], [validateDebugResult] and
    the entry point [handleDebug], together with the two JavaScript built-ins
    they rest on, [JSON.parse] and [String.prototype.match] with the regular
    expression [/\{[\s\S]*\}/].

    JavaScript strings are sequences of UTF-16 code units; a code unit is a
    number below 65536, kept here as an [N]. *)

From Stdlib Require Import List NArith ZArith Bool String Ascii Lia.
Import ListNotations.

(** ** JavaScript strings *)

Definition jsstring := list N.

(** The code units of an ASCII literal. *)
Fixpoint lit (s : string) : jsstring :=
  match s with
  | EmptyString => []
  | String a r => N_of_ascii a :: lit r
  end.

Fixpoint str_eqb (a b : jsstring) : bool :=
  match a, b with
  | [], [] => true
  | x :: a', y :: b' => N.eqb x y && str_eqb a' b'
  | _, _ => false
  end.

Module Ch.
Definition tab : N := 9.
Definition lf : N := 10.
Definition cr : N := 13.
Definition space : N := 32.
Definition dquote : N := 34.
Definition plus : N := 43.
Definition comma : N := 44.
Definition minus : N := 45.
Definition dot : N := 46.
Definition slash : N := 47.
Definition zero : N := 48.
Definition colon : N := 58.
Definition lbrack : N := 91.
Definition backslash : N := 92.
Definition rbrack : N := 93.
Definition lbrace : N := 123.
Definition rbrace : N := 125.
End Ch.

(** A literal between double quotes, and a line break, as they occur in the
    template literals of the source. *)
Definition quoted (s : string) : jsstring := Ch.dquote :: lit s ++ [Ch.dquote].
Definition nl : jsstring := [Ch.lf].

(** [String.prototype.trim]: the WhiteSpace and LineTerminator code units of
    ECMAScript are stripped from both ends. *)
Definition js_whitespace (c : N) : bool :=
  (N.leb 9 c && N.leb c 13) || N.eqb c 32 || N.eqb c 160 || N.eqb c 5760
  || (N.leb 8192 c && N.leb c 8202) || N.eqb c 8232 || N.eqb c 8233
  || N.eqb c 8239 || N.eqb c 8287 || N.eqb c 12288 || N.eqb c 65279.

Fixpoint trimStart (s : jsstring) : jsstring :=
  match s with
  | [] => []
  | c :: r => if js_whitespace c then trimStart r else s
  end.

Definition trimEnd (s : jsstring) : jsstring := rev (trimStart (rev s)).

Definition trim (s : jsstring) : jsstring := trimEnd (trimStart s).

(** JavaScript truthiness of a string: the empty string is the one falsy
    string. *)
Definition nonempty (s : jsstring) : bool :=
  match s with [] => false | _ :: _ => true end.

(** ** JSON values

    What [JSON.parse] returns. A number is kept as the decimal literal that
    denotes it: sign, integer digits, fraction digits, exponent. The digits
    are digit values (0 to 9), most significant first. Object members are
    kept in the order of their first occurrence in the text; an engine lists
    integer-like keys first, which this program, looking members up by name,
    cannot see. *)

Record number := mkNumber {
  num_neg : bool;
  num_int : list N;
  num_frac : list N;
  num_exp : option (bool * list N)
}.

#[local] Unset Elimination Schemes.
Inductive json :=
| JNull
| JBool (b : bool)
| JNum (n : number)
| JStr (s : jsstring)
| JArr (l : list json)
| JObj (m : list (jsstring * json)).
#[local] Set Elimination Schemes.

(** Own property lookup; [None] is JavaScript's [undefined]. *)
Fixpoint lookup (k : jsstring) (m : list (jsstring * json)) : option json :=
  match m with
  | [] => None
  | (k', v) :: r => if str_eqb k k' then Some v else lookup k r
  end.

(** [CreateDataProperty]: an existing key keeps its place and takes the new
    value, a new key goes last. *)
Fixpoint set_prop (k : jsstring) (v : json) (m : list (jsstring * json))
  : list (jsstring * json) :=
  match m with
  | [] => [(k, v)]
  | (k', v') :: r =>
      if str_eqb k k' then (k', v) :: r else (k', v') :: set_prop k v r
  end.

(** *** The double a literal denotes is zero

    Needed for truthiness only. With [m] the integer the digits spell and
    [e] the decimal exponent, the literal denotes [m * 10^e]; it rounds to
    the double zero exactly when it is at most [2^-1075], half of the
    smallest positive double (a tie goes to the even neighbour, zero). *)
Definition digits_value (ds : list N) : N :=
  fold_left (fun a d => (a * 10 + d)%N) ds 0%N.

Definition exponent_value (e : option (bool * list N)) : Z :=
  match e with
  | None => 0%Z
  | Some (true, ds) => (- Z.of_N (digits_value ds))%Z
  | Some (false, ds) => Z.of_N (digits_value ds)
  end.

Definition number_is_zero (n : number) : bool :=
  let m := Z.of_N (digits_value (num_int n ++ num_frac n)) in
  let e := (exponent_value (num_exp n) - Z.of_nat (List.length (num_frac n)))%Z in
  Z.eqb m 0
  || (Z.ltb e 0 && Z.leb (m * 2 ^ 1075) (10 ^ (- e)))%Z.

(** ** [JSON.parse]

    One pass over the code units: a lexer mode and a stack machine that
    assembles the value. A text that is not JSON makes [JSON.parse] throw a
    [SyntaxError]; the two callers catch it without looking at it, so the
    failure is [None] here. *)

Inductive token :=
| TLBrace | TRBrace | TLBrack | TRBrack | TColon | TComma
| TStr (s : jsstring) | TNum (n : number) | TTrue | TFalse | TNull.

(** A container under construction, waiting for the value being read. *)
Inductive frame :=
| FArr (acc : list json)
| FObj (acc : list (jsstring * json)) (key : jsstring).

(** [first] says that the opening bracket or brace has just been read, so
    that the container may close at once. *)
Inductive pstate :=
| PValue (first : bool) (K : list frame)
| PArrNext (acc : list json) (K : list frame)
| PObjKey (first : bool) (acc : list (jsstring * json)) (K : list frame)
| PObjColon (acc : list (jsstring * json)) (key : jsstring) (K : list frame)
| PObjNext (acc : list (jsstring * json)) (K : list frame)
| PDone (v : json).

(** A finished value goes to the container on top of the stack. *)
Definition deliver (v : json) (K : list frame) : pstate :=
  match K with
  | [] => PDone v
  | FArr acc :: K' => PArrNext (acc ++ [v]) K'
  | FObj acc k :: K' => PObjNext (set_prop k v acc) K'
  end.

Definition pvalue (first : bool) (K : list frame) (t : token) : option pstate :=
  match t with
  | TLBrack => Some (PValue true (FArr [] :: K))
  | TLBrace => Some (PObjKey true [] K)
  | TStr s => Some (deliver (JStr s) K)
  | TNum n => Some (deliver (JNum n) K)
  | TTrue => Some (deliver (JBool true) K)
  | TFalse => Some (deliver (JBool false) K)
  | TNull => Some (deliver JNull K)
  | TRBrack =>
      match first, K with
      | true, FArr acc :: K' => Some (deliver (JArr acc) K')
      | _, _ => None
      end
  | TRBrace | TColon | TComma => None
  end.

Definition pstep (p : pstate) (t : token) : option pstate :=
  match p, t with
  | PValue first K, _ => pvalue first K t
  | PArrNext acc K, TComma => Some (PValue false (FArr acc :: K))
  | PArrNext acc K, TRBrack => Some (deliver (JArr acc) K)
  | PObjKey _ acc K, TStr k => Some (PObjColon acc k K)
  | PObjKey true acc K, TRBrace => Some (deliver (JObj acc) K)
  | PObjColon acc k K, TColon => Some (PValue false (FObj acc k :: K))
  | PObjNext acc K, TComma => Some (PObjKey false acc K)
  | PObjNext acc K, TRBrace => Some (deliver (JObj acc) K)
  | _, _ => None
  end.

(** Where the lexer is inside a number literal. Digit lists are reversed
    while they grow. *)
Inductive numstate :=
| NMinus
| NZero (neg : bool)
| NInt (neg : bool) (ds : list N)
| NDot (neg : bool) (int : list N)
| NFrac (neg : bool) (int : list N) (fs : list N)
| NE (neg : bool) (int : list N) (frac : list N)
| NESign (neg : bool) (int : list N) (frac : list N) (eneg : bool)
| NExp (neg : bool) (int : list N) (frac : list N) (eneg : bool) (es : list N).

Inductive lstate :=
| LIdle
| LLit (rest : jsstring) (t : token)
| LStr (acc : jsstring)
| LEsc (acc : jsstring)
| LHex (acc : jsstring) (todo : nat) (v : N)
| LNum (ns : numstate).

Definition is_digit (c : N) : bool := N.leb 48 c && N.leb c 57.
Definition digit_of (c : N) : N := (c - 48)%N.

Definition hex_value (c : N) : option N :=
  if is_digit c then Some (c - 48)%N
  else if N.leb 97 c && N.leb c 102 then Some (c - 87)%N
  else if N.leb 65 c && N.leb c 70 then Some (c - 55)%N
  else None.

Definition is_e (c : N) : bool := N.eqb c 101 || N.eqb c 69.

(** The number read so far, when the literal may end here. *)
Definition num_done (ns : numstate) : option number :=
  match ns with
  | NZero neg => Some (mkNumber neg [0%N] [] None)
  | NInt neg ds => Some (mkNumber neg (rev ds) [] None)
  | NFrac neg int fs => Some (mkNumber neg int (rev fs) None)
  | NExp neg int frac eneg es => Some (mkNumber neg int frac (Some (eneg, rev es)))
  | NMinus | NDot _ _ | NE _ _ _ | NESign _ _ _ _ => None
  end.

(** One more code unit of a number literal; [None] when [c] does not
    continue the literal. *)
Definition num_step (ns : numstate) (c : N) : option numstate :=
  match ns with
  | NMinus =>
      if N.eqb c 48 then Some (NZero true)
      else if is_digit c then Some (NInt true [digit_of c])
      else None
  | NZero neg =>
      if N.eqb c Ch.dot then Some (NDot neg [0%N])
      else if is_e c then Some (NE neg [0%N] [])
      else None
  | NInt neg ds =>
      if is_digit c then Some (NInt neg (digit_of c :: ds))
      else if N.eqb c Ch.dot then Some (NDot neg (rev ds))
      else if is_e c then Some (NE neg (rev ds) [])
      else None
  | NDot neg int =>
      if is_digit c then Some (NFrac neg int [digit_of c]) else None
  | NFrac neg int fs =>
      if is_digit c then Some (NFrac neg int (digit_of c :: fs))
      else if is_e c then Some (NE neg int (rev fs))
      else None
  | NE neg int frac =>
      if is_digit c then Some (NExp neg int frac false [digit_of c])
      else if N.eqb c Ch.plus then Some (NESign neg int frac false)
      else if N.eqb c Ch.minus then Some (NESign neg int frac true)
      else None
  | NESign neg int frac eneg =>
      if is_digit c then Some (NExp neg int frac eneg [digit_of c]) else None
  | NExp neg int frac eneg es =>
      if is_digit c then Some (NExp neg int frac eneg (digit_of c :: es))
      else None
  end.

Definition state := (lstate * pstate)%type.

Definition emit (t : token) (p : pstate) : option state :=
  match pstep p t with
  | Some p' => Some (LIdle, p')
  | None => None
  end.

Definition json_whitespace (c : N) : bool :=
  N.eqb c Ch.tab || N.eqb c Ch.lf || N.eqb c Ch.cr || N.eqb c Ch.space.

(** A code unit between tokens. *)
Definition idle_step (p : pstate) (c : N) : option state :=
  if json_whitespace c then Some (LIdle, p)
  else if N.eqb c Ch.lbrace then emit TLBrace p
  else if N.eqb c Ch.rbrace then emit TRBrace p
  else if N.eqb c Ch.lbrack then emit TLBrack p
  else if N.eqb c Ch.rbrack then emit TRBrack p
  else if N.eqb c Ch.colon then emit TColon p
  else if N.eqb c Ch.comma then emit TComma p
  else if N.eqb c Ch.dquote then Some (LStr [], p)
  else if N.eqb c Ch.minus then Some (LNum NMinus, p)
  else if N.eqb c 48 then Some (LNum (NZero false), p)
  else if is_digit c then Some (LNum (NInt false [digit_of c]), p)
  else if N.eqb c 116 then Some (LLit (lit "rue") TTrue, p)
  else if N.eqb c 102 then Some (LLit (lit "alse") TFalse, p)
  else if N.eqb c 110 then Some (LLit (lit "ull") TNull, p)
  else None.

(** The character an escape letter stands for. *)
Definition escape_value (c : N) : option N :=
  if N.eqb c Ch.dquote then Some Ch.dquote
  else if N.eqb c Ch.backslash then Some Ch.backslash
  else if N.eqb c Ch.slash then Some Ch.slash
  else if N.eqb c 98 then Some 8%N
  else if N.eqb c 102 then Some 12%N
  else if N.eqb c 110 then Some 10%N
  else if N.eqb c 114 then Some 13%N
  else if N.eqb c 116 then Some 9%N
  else None.

Definition step (st : state) (c : N) : option state :=
  let (l, p) := st in
  match l with
  | LIdle => idle_step p c
  | LLit rest t =>
      match rest with
      | [] => None
      | [x] => if N.eqb c x then emit t p else None
      | x :: rest' => if N.eqb c x then Some (LLit rest' t, p) else None
      end
  | LStr acc =>
      if N.eqb c Ch.dquote then emit (TStr (rev acc)) p
      else if N.eqb c Ch.backslash then Some (LEsc acc, p)
      else if N.ltb c 32 then None
      else Some (LStr (c :: acc), p)
  | LEsc acc =>
      if N.eqb c 117 then Some (LHex acc 4 0%N, p)
      else match escape_value c with
           | Some x => Some (LStr (x :: acc), p)
           | None => None
           end
  | LHex acc todo v =>
      match hex_value c with
      | None => None
      | Some d =>
          match todo with
          | 0%nat => None
          | 1%nat => Some (LStr ((v * 16 + d)%N :: acc), p)
          | S todo' => Some (LHex acc todo' (v * 16 + d)%N, p)
          end
      end
  | LNum ns =>
      match num_step ns c with
      | Some ns' => Some (LNum ns', p)
      | None =>
          match num_done ns with
          | Some n =>
              match pstep p (TNum n) with
              | Some p' => idle_step p' c
              | None => None
              end
          | None => None
          end
      end
  end.

(** End of the text: a number literal may end here; anything else must be
    complete already. *)
Definition finish (st : state) : option json :=
  let (l, p) := st in
  match l with
  | LIdle => match p with PDone v => Some v | _ => None end
  | LNum ns =>
      match num_done ns with
      | Some n =>
          match pstep p (TNum n) with
          | Some (PDone v) => Some v
          | _ => None
          end
      | None => None
      end
  | _ => None
  end.

Fixpoint run (st : state) (s : jsstring) : option json :=
  match s with
  | [] => finish st
  | c :: r =>
      match step st c with
      | Some st' => run st' r
      | None => None
      end
  end.

Definition JSON_parse (text : jsstring) : option json :=
  run (LIdle, PValue false []) text.


(** ** Serialisation

    The text of a value, without indentation: the spec's [serialize].
    Strings, [true], [false], [null], arrays and objects are written as
    [JSON.stringify] writes them: control characters, the double quote, the
    backslash and lone surrogates are escaped. A number is written as the
    literal it is kept as, with a lower-case [e] and a signed exponent;
    [JSON.stringify] writes a number from its double instead, and the two
    agree on the literals of [safe_integer] below, not on [1.0], [-0] or
    [1e400]. The members of an object are written in the order of the list;
    an engine writes the keys made of digits first. [JSON_stringify], below,
    is [serialize] where it is what [JSON.stringify] writes. *)

Definition hex_digit (d : N) : N :=
  if N.ltb d 10 then (48 + d)%N else (87 + d)%N.

Definition unicode_escape (c : N) : jsstring :=
  [Ch.backslash; 117%N;
   hex_digit (c / 4096); hex_digit ((c / 256) mod 16);
   hex_digit ((c / 16) mod 16); hex_digit (c mod 16)].

Definition escape_unit (c : N) : jsstring :=
  if N.eqb c Ch.dquote then [Ch.backslash; Ch.dquote]
  else if N.eqb c Ch.backslash then [Ch.backslash; Ch.backslash]
  else if N.eqb c 8 then [Ch.backslash; 98%N]
  else if N.eqb c 12 then [Ch.backslash; 102%N]
  else if N.eqb c 10 then [Ch.backslash; 110%N]
  else if N.eqb c 13 then [Ch.backslash; 114%N]
  else if N.eqb c 9 then [Ch.backslash; 116%N]
  else if N.ltb c 32 then unicode_escape c
  else [c].

Definition is_high_surrogate (c : N) : bool := N.leb 55296 c && N.leb c 56319.
Definition is_low_surrogate (c : N) : bool := N.leb 56320 c && N.leb c 57343.

Fixpoint quote_units (s : jsstring) : jsstring :=
  match s with
  | [] => []
  | c :: r =>
      if is_high_surrogate c then
        match r with
        | d :: r' =>
            if is_low_surrogate d then c :: d :: quote_units r'
            else unicode_escape c ++ quote_units r
        | [] => unicode_escape c
        end
      else if is_low_surrogate c then unicode_escape c ++ quote_units r
      else escape_unit c ++ quote_units r
  end.

Definition quote (s : jsstring) : jsstring :=
  Ch.dquote :: quote_units s ++ [Ch.dquote].

Definition digit_chars (ds : list N) : jsstring :=
  map (fun d => (48 + d)%N) ds.

Definition print_number (n : number) : jsstring :=
  (if num_neg n then [Ch.minus] else [])
  ++ digit_chars (num_int n)
  ++ match num_frac n with
     | [] => []
     | _ :: _ => Ch.dot :: digit_chars (num_frac n)
     end
  ++ match num_exp n with
     | None => []
     | Some (eneg, es) =>
         101%N :: (if eneg then Ch.minus else Ch.plus) :: digit_chars es
     end.

Fixpoint join (sep : jsstring) (l : list jsstring) : jsstring :=
  match l with
  | [] => []
  | x :: r =>
      match r with
      | [] => x
      | _ :: _ => x ++ sep ++ join sep r
      end
  end.

Fixpoint serialize (v : json) : jsstring :=
  match v with
  | JNull => lit "null"
  | JBool true => lit "true"
  | JBool false => lit "false"
  | JNum n => print_number n
  | JStr s => quote s
  | JArr l => Ch.lbrack :: join [Ch.comma] (map serialize l) ++ [Ch.rbrack]
  | JObj m =>
      Ch.lbrace
      :: join [Ch.comma]
           (map (fun '(k, x) => quote k ++ Ch.colon :: serialize x) m)
      ++ [Ch.rbrace]
  end.

(** *** Well-formed values

    A literal follows the JSON number grammar, and the keys of an object are
    pairwise different. These are the values [JSON.parse] returns
    ([wf_json_parsed]). *)

Definition all_digits (ds : list N) : bool := forallb (fun d => N.ltb d 10) ds.

Definition wf_int (ds : list N) : bool :=
  match ds with
  | [] => false
  | [d] => N.ltb d 10
  | d :: _ => negb (N.eqb d 0) && all_digits ds
  end.

Definition wf_number (n : number) : bool :=
  wf_int (num_int n)
  && all_digits (num_frac n)
  && match num_exp n with
     | None => true
     | Some (_, es) => nonempty es && all_digits es
     end.

Fixpoint distinct (ks : list jsstring) : bool :=
  match ks with
  | [] => true
  | k :: r => negb (existsb (str_eqb k) r) && distinct r
  end.

Fixpoint wf_json (v : json) : bool :=
  match v with
  | JNull | JBool _ | JStr _ => true
  | JNum n => wf_number n
  | JArr l => forallb wf_json l
  | JObj m => distinct (map fst m) && forallb (fun '(_, x) => wf_json x) m
  end.

(** ** [text.match(/\{[\s\S]*\}/)]

    The expression has no [g] flag: the result is the first match, found by
    trying the start positions from left to right. At a start position [\{]
    must match; [[\s\S]*] then takes every code unit it can and gives back
    one at a time until [\}] matches. [greedy_rbrace r] is what [[\s\S]*\}]
    matches at the front of [r], the longest prefix that ends with a closing
    brace. *)

Fixpoint greedy_rbrace (r : jsstring) : option jsstring :=
  match r with
  | [] => None
  | c :: r' =>
      match greedy_rbrace r' with
      | Some m => Some (c :: m)
      | None => if N.eqb c Ch.rbrace then Some [c] else None
      end
  end.

Fixpoint match_braces (text : jsstring) : option jsstring :=
  match text with
  | [] => None
  | c :: r =>
      if N.eqb c Ch.lbrace then
        match greedy_rbrace r with
        | Some m => Some (c :: m)
        | None => match_braces r
        end
      else match_braces r
  end.

(** ** Exceptions

    A thrown value is an [Error] instance with its [message] (the errors the
    code makes with [new Error], the engine's [TypeError], the errors of the
    provider SDKs) or some other value. *)

Inductive thrown :=
| ErrorObj (message : jsstring)
| NonError.

(** [err instanceof Error ? err.message : fallback] *)
Definition message_or (fallback : jsstring) (err : thrown) : jsstring :=
  match err with
  | ErrorObj message => message
  | NonError => fallback
  end.

(** ** [extractJsonFromText] *)

Definition extractJsonFromText (text : jsstring) : thrown + json :=
  match JSON_parse text with
  | Some v => inr v
  | None =>
      match match_braces text with
      | Some jsonMatch =>
          match JSON_parse jsonMatch with
          | Some v => inr v
          | None => inl (ErrorObj (lit "Could not parse JSON from response"))
          end
      | None => inl (ErrorObj (lit "No JSON found in response"))
      end
  end.

(** ** [validateDebugResult]

    The argument has type [any]. Reading a property of [null] throws a
    [TypeError] (the message is V8's); a primitive or an array has no
    property of the three names; an object gives its own property or
    [undefined]. The types of [DebugResult] are erased at run time: a field
    holds whatever the property held. *)

Definition any := option json.
Definition undefined : any := None.

Module DebugResult.
Record t := mk { problem : any; solution : any; codeSnippet : any }.
End DebugResult.

Definition truthy (x : any) : bool :=
  match x with
  | None => false
  | Some JNull => false
  | Some (JBool b) => b
  | Some (JNum n) => negb (number_is_zero n)
  | Some (JStr s) => nonempty s
  | Some (JArr _) => true
  | Some (JObj _) => true
  end.

Definition prop (result : json) (name : string) : any :=
  match result with
  | JObj m => lookup (lit name) m
  | _ => undefined
  end.

Definition validateDebugResult (result : json) : thrown + DebugResult.t :=
  match result with
  | JNull =>
      inl (ErrorObj (lit "Cannot read properties of null (reading 'problem')"))
  | _ =>
      if negb (truthy (prop result "problem"))
         || negb (truthy (prop result "solution"))
         || negb (truthy (prop result "codeSnippet"))
      then inl (ErrorObj (lit "Invalid response format"))
      else inr (DebugResult.mk (prop result "problem")
                               (prop result "solution")
                               (prop result "codeSnippet"))
  end.


(** ** The model catalog *)

Inductive Provider := google | openai | anthropic | replicate.

Module AIModel.
Record t := mk { value : jsstring; label : jsstring; provider : Provider }.
End AIModel.

Definition AI_MODELS : list AIModel.t := [
  AIModel.mk (lit "gemini-1.5") (lit "Gemini 1.5") google;
  AIModel.mk (lit "gemini-1.5-flash") (lit "Gemini 1.5 Flash") google;
  AIModel.mk (lit "gpt-3.5-turbo") (lit "GPT-3.5 Turbo") openai;
  AIModel.mk (lit "gpt-4") (lit "GPT-4") openai;
  AIModel.mk (lit "claude-3-opus") (lit "Claude 3") anthropic;
  AIModel.mk (lit "meta/llama-2-70b-chat") (lit "Llama 3") replicate
].

(** [AI_MODELS.find(m => m.value === model)] *)
Definition find_model (model : jsstring) : option AIModel.t :=
  find (fun m => str_eqb (AIModel.value m) model) AI_MODELS.

(** ** The prompts

    The three-key format every prompt shows to the model, and the two
    templates around it: one shared, word for word, by the Gemini, Claude and
    Llama handlers, one for the user message of the OpenAI handler. *)

Definition format_block : jsstring :=
  lit "{" ++ nl
  ++ lit "  " ++ quoted "problem" ++ lit ": "
     ++ quoted "detailed analysis of the issue" ++ lit "," ++ nl
  ++ lit "  " ++ quoted "solution" ++ lit ": "
     ++ quoted "step-by-step solution" ++ lit "," ++ nl
  ++ lit "  " ++ quoted "codeSnippet" ++ lit ": "
     ++ quoted "relevant problematic code section" ++ nl
  ++ lit "}".

Definition prompt_text (code problem : jsstring) : jsstring :=
  lit "You are an expert programmer. Analyze this code and problem, then respond ONLY with a JSON object in this exact format:" ++ nl
  ++ format_block ++ nl
  ++ nl
  ++ lit "Code:" ++ nl
  ++ code ++ nl
  ++ nl
  ++ lit "Problem Description:" ++ nl
  ++ problem.

Definition openai_system : jsstring :=
  lit "You are an expert programmer. Respond ONLY with a JSON object containing problem analysis, solution, and problematic code snippet.".

Definition openai_user (code problem : jsstring) : jsstring :=
  lit "Analyze this code and problem:" ++ nl
  ++ nl
  ++ lit "Code:" ++ nl
  ++ code ++ nl
  ++ nl
  ++ lit "Problem Description:" ++ nl
  ++ problem ++ nl
  ++ nl
  ++ lit "Respond ONLY with a JSON object in this exact format:" ++ nl
  ++ format_block.

(** ** The providers

    The SDK clients are outside the program. A [World] says what each of them
    does with a request: the constructor of the client throws or not, the
    call throws or gives the part of the response the handler reads.
    - Gemini: the string [response.text()] returns;
    - OpenAI: the [choices] of the response, each with its
      [message.content], a string or [null];
    - Claude: the [text] of each block of [response.content];
    - Replicate: the output of the run, whatever it is (a string, an array
      of fragments, ...).
    The constant arguments of the four calls ([temperature: 0.7],
    [response_format], [max_tokens: 1024], [max_new_tokens: 1024]) are not
    repeated in the requests. *)

Inductive request :=
| GenerateContent (apiKey model prompt : jsstring)
| ChatCompletionsCreate (apiKey model system user : jsstring)
| MessagesCreate (apiKey model content : jsstring)
| ReplicateRun (auth version prompt : jsstring).

Record World := {
  new_client : Provider -> jsstring -> jsstring -> option thrown;
  generateContent : jsstring -> jsstring -> jsstring -> thrown + jsstring;
  chat_completions_create :
    jsstring -> jsstring -> jsstring -> jsstring -> thrown + list (option jsstring);
  messages_create : jsstring -> jsstring -> jsstring -> thrown + list jsstring;
  replicate_run : jsstring -> jsstring -> jsstring -> thrown + json
}.

(** ** State, trace and exceptions

    The React state of the component, and the trace of what a run of
    [handleDebug] does on the way: the catalog lookup, the call to a
    provider, the extraction and the validation. The handlers read [code],
    [problem], [apiKey] and [model] and write [loading], [result] and
    [error] only, so the values they read are the ones of the render that
    started them. *)

Record AppState := mkState {
  code : jsstring;
  problem : jsstring;
  apiKey : jsstring;
  model : jsstring;
  loading : bool;
  result : option DebugResult.t;
  error : jsstring
}.

Inductive event :=
| EvLookup (model : jsstring)
| EvCall (r : request)
| EvExtract (text : jsstring)
| EvValidate (v : json).

Definition M (A : Type) : Type :=
  AppState -> list event -> (thrown + A) * AppState * list event.

Definition ret {A} (x : A) : M A := fun st tr => (inr x, st, tr).

Definition bind {A B} (c : M A) (k : A -> M B) : M B :=
  fun st tr =>
    match c st tr with
    | (inr x, st', tr') => k x st' tr'
    | (inl e, st', tr') => (inl e, st', tr')
    end.

Notation "x <- c ;; k" := (bind c (fun x => k))
  (at level 61, c at next level, right associativity).
Notation "c ;; k" := (bind c (fun _ => k))
  (at level 61, right associativity).

Definition throw {A} (e : thrown) : M A := fun st tr => (inl e, st, tr).

Definition lift {A} (r : thrown + A) : M A :=
  match r with inl e => throw e | inr x => ret x end.

Definition try_catch {A} (body : M A) (handler : thrown -> M A) : M A :=
  fun st tr =>
    match body st tr with
    | (inl e, st', tr') => handler e st' tr'
    | (inr x, st', tr') => (inr x, st', tr')
    end.

Definition try_finally {A} (body : M A) (finalizer : M unit) : M A :=
  fun st tr =>
    match body st tr with
    | (r, st', tr') =>
        match finalizer st' tr' with
        | (inl e, st'', tr'') => (inl e, st'', tr'')
        | (inr _, st'', tr'') => (r, st'', tr'')
        end
    end.

Definition get : M AppState := fun st tr => (inr st, st, tr).

Definition log (ev : event) : M unit := fun st tr => (inr tt, st, tr ++ [ev]).

Definition with_loading (b : bool) (st : AppState) : AppState :=
  mkState (code st) (problem st) (apiKey st) (model st) b (result st) (error st).

Definition with_result (r : option DebugResult.t) (st : AppState) : AppState :=
  mkState (code st) (problem st) (apiKey st) (model st) (loading st) r (error st).

Definition with_error (msg : jsstring) (st : AppState) : AppState :=
  mkState (code st) (problem st) (apiKey st) (model st) (loading st) (result st) msg.

Definition setLoading (b : bool) : M unit :=
  fun st tr => (inr tt, with_loading b st, tr).

Definition setResult (r : option DebugResult.t) : M unit :=
  fun st tr => (inr tt, with_result r st, tr).

Definition setError (msg : jsstring) : M unit :=
  fun st tr => (inr tt, with_error msg st, tr).

(** ** The handlers *)

Section Handlers.

Variable w : World.

Definition construct (p : Provider) (key mdl : jsstring) : M unit :=
  match new_client w p key mdl with
  | Some e => throw e
  | None => ret tt
  end.

Definition call {A} (r : request) (reply : thrown + A) : M A :=
  log (EvCall r) ;; lift reply.

Definition extract (text : jsstring) : M json :=
  log (EvExtract text) ;; lift (extractJsonFromText text).

Definition validate (parsedResult : json) : M DebugResult.t :=
  log (EvValidate parsedResult) ;; lift (validateDebugResult parsedResult).

Definition handleGeminiDebug : M unit :=
  st <- get ;;
  construct google (apiKey st) (model st) ;;
  let prompt := prompt_text (code st) (problem st) in
  try_catch
    (text <- call (GenerateContent (apiKey st) (model st) prompt)
                  (generateContent w (apiKey st) (model st) prompt) ;;
     parsedResult <- extract text ;;
     r <- validate parsedResult ;;
     setResult (Some r))
    (fun err => setError (message_or (lit "Failed to process Gemini response") err)).

Definition handleOpenAIDebug : M unit :=
  st <- get ;;
  construct openai (apiKey st) (model st) ;;
  try_catch
    (choices <- call (ChatCompletionsCreate (apiKey st) (model st) openai_system
                        (openai_user (code st) (problem st)))
                     (chat_completions_create w (apiKey st) (model st) openai_system
                        (openai_user (code st) (problem st))) ;;
     let content := match choices with
                    | [] => None
                    | c :: _ => c
                    end in
     match content with
     | Some ((_ :: _) as content) =>
         parsedResult <- extract content ;;
         r <- validate parsedResult ;;
         setResult (Some r)
     | _ => ret tt
     end)
    (fun err => setError (message_or (lit "Failed to process OpenAI response") err)).

Definition claude_model : jsstring := lit "claude-3-opus-20240229".

Definition handleClaudeDebug : M unit :=
  st <- get ;;
  construct anthropic (apiKey st) (model st) ;;
  try_catch
    (content <- call (MessagesCreate (apiKey st) claude_model
                        (prompt_text (code st) (problem st)))
                     (messages_create w (apiKey st) claude_model
                        (prompt_text (code st) (problem st))) ;;
     text <- match content with
             | [] => throw (ErrorObj (lit "Cannot read properties of undefined (reading 'text')"))
             | text :: _ => ret text
             end ;;
     parsedResult <- extract text ;;
     r <- validate parsedResult ;;
     setResult (Some r))
    (fun err => setError (message_or (lit "Failed to process Claude response") err)).

Definition llama_version : jsstring :=
  lit "meta/llama-2-70b-chat:02e509c789964a7ea8736978a43525956ef40397be9033abf9fd2badfe68c9e3".

Definition handleLlamaDebug : M unit :=
  st <- get ;;
  construct replicate (apiKey st) (model st) ;;
  try_catch
    (output <- call (ReplicateRun (apiKey st) llama_version
                       (prompt_text (code st) (problem st)))
                    (replicate_run w (apiKey st) llama_version
                       (prompt_text (code st) (problem st))) ;;
     match output with
     | JStr output =>
         parsedResult <- extract output ;;
         r <- validate parsedResult ;;
         setResult (Some r)
     | _ => ret tt
     end)
    (fun err => setError (message_or (lit "Failed to process Llama response") err)).

(** [!code.trim() || !problem.trim() || !apiKey.trim()] *)
Definition missing_field (st : AppState) : bool :=
  negb (nonempty (trim (code st)))
  || negb (nonempty (trim (problem st)))
  || negb (nonempty (trim (apiKey st))).

Definition handleDebug : M unit :=
  st <- get ;;
  if missing_field st then setError (lit "Please fill in all fields")
  else
    setLoading true ;;
    setError [] ;;
    setResult None ;;
    try_finally
      (try_catch
         (log (EvLookup (model st)) ;;
          let selectedModel := find_model (model st) in
          match option_map AIModel.provider selectedModel with
          | Some google => handleGeminiDebug
          | Some openai => handleOpenAIDebug
          | Some anthropic => handleClaudeDebug
          | Some replicate => handleLlamaDebug
          | None => setError (lit "Invalid model selected")
          end)
         (fun err => setError (message_or (lit "An error occurred") err)))
      (setLoading false).

End Handlers.

(** One click on the debug button: the final state, the trace, and the
    exception that left [handleDebug], if any. *)
Definition dispatch (w : World) (st : AppState) :=
  handleDebug w st [].

Definition final (w : World) (st : AppState) : AppState := snd (fst (dispatch w st)).
Definition trace (w : World) (st : AppState) : list event := snd (dispatch w st).
Definition escaped (w : World) (st : AppState) : option thrown :=
  match fst (fst (dispatch w st)) with inl e => Some e | inr _ => None end.

(** ** More of [String.prototype]

    [startsWith], [endsWith], [includes], [split] with a one-unit separator
    and [slice(2, -2)], as the rest of the component uses them. *)

Fixpoint startsWith (s searchString : jsstring) {struct searchString} : bool :=
  match searchString, s with
  | [], _ => true
  | _ :: _, [] => false
  | x :: searchString', c :: s' => N.eqb c x && startsWith s' searchString'
  end.

Definition endsWith (s searchString : jsstring) : bool :=
  startsWith (rev s) (rev searchString).

Fixpoint includes (s searchString : jsstring) : bool :=
  startsWith s searchString
  || match s with
     | [] => false
     | _ :: s' => includes s' searchString
     end.

Fixpoint split_on (sep : N) (s : jsstring) : list jsstring :=
  match s with
  | [] => [[]]
  | c :: r =>
      if N.eqb c sep then [] :: split_on sep r
      else match split_on sep r with
           | line :: lines => (c :: line) :: lines
           | [] => [[c]]
           end
  end.

(** [part.slice(2, -2)]: from the third unit to the third from the end,
    nothing when the part has fewer than five units. *)
Definition slice_2_m2 (part : jsstring) : jsstring :=
  firstn (List.length part - 4) (skipn 2 part).

(** ** The complexity analyzer

    [analyzeComplexity] and [getFunctionName] of the first component of the
    file. [String.prototype.toLowerCase] follows the case mapping of
    Unicode, a table of the engine and not of the program: it is an argument
    here. *)

Module ComplexityResult.
Record t := mk { time : jsstring; space : jsstring; explanation : jsstring }.
End ComplexityResult.

(** [\w] without flags: a letter of ASCII, a digit or the underscore. *)
Definition is_word (c : N) : bool :=
  (N.leb 97 c && N.leb c 122) || (N.leb 65 c && N.leb c 90)
  || (N.leb 48 c && N.leb c 57) || N.eqb c 95.

Fixpoint take_word (s : jsstring) : jsstring :=
  match s with
  | [] => []
  | c :: r => if is_word c then c :: take_word r else []
  end.

Fixpoint strip_prefix (prefix s : jsstring) : option jsstring :=
  match prefix, s with
  | [], _ => Some s
  | _ :: _, [] => None
  | x :: prefix', c :: s' => if N.eqb c x then strip_prefix prefix' s' else None
  end.

(** What [/function\s+(\w+)/] captures when it matches at the front of [s]:
    the word [function], all the white space that follows, at least one
    unit of it, and all the word characters after it, at least one. [\s] is
    the white space of [trim]. *)
Definition function_name_at (s : jsstring) : option jsstring :=
  match strip_prefix (lit "function") s with
  | None => None
  | Some rest =>
      match rest with
      | [] => None
      | c :: _ =>
          if js_whitespace c then
            match take_word (trimStart rest) with
            | [] => None
            | name => Some name
            end
          else None
      end
  end.

(** [code.match(/function\s+(\w+)/)]: the first position where the
    expression matches, and its capture. *)
Fixpoint getFunctionName (code : jsstring) : option jsstring :=
  match function_name_at code with
  | Some name => Some name
  | None =>
      match code with
      | [] => None
      | _ :: r => getFunctionName r
      end
  end.

Record Markers := mkMarkers {
  hasNestedLoops : bool;
  hasSingleLoop : bool;
  hasRecursion : bool;
  hasExtraSpace : bool;
  hasLinearSpace : bool
}.

(** The tests of the loop body, on a line already trimmed and in lower
    case. *)
Definition loop_line (line : jsstring) : bool :=
  includes line (lit "for") || includes line (lit "while").

Definition recursion_line (code line : jsstring) : bool :=
  includes line (lit "return") && includes line (lit "(")
  && match getFunctionName code with
     | Some functionName => nonempty functionName && includes line functionName
     | None => false
     end.

Definition linear_space_line (line : jsstring) : bool :=
  includes line (lit "new array") || includes line (lit "new map")
  || includes line (lit "new set").

Definition extra_space_line (line : jsstring) : bool :=
  includes line (lit "[]") || includes line (lit "{}").

(** One turn of the loop. *)
Definition scan_line (code : jsstring) (m : Markers) (line : jsstring) : Markers :=
  mkMarkers
    (if loop_line line then (if hasSingleLoop m then true else hasNestedLoops m)
     else hasNestedLoops m)
    (if loop_line line then true else hasSingleLoop m)
    (if recursion_line code line then true else hasRecursion m)
    (if extra_space_line line then true else hasExtraSpace m)
    (if linear_space_line line then true else hasLinearSpace m).

Definition quadratic : jsstring := lit "O(n" ++ [178%N] ++ lit ")".
Definition exponential : jsstring := lit "O(2" ++ [8319%N] ++ lit ")".

Definition analyzeComplexity (toLowerCase : jsstring -> jsstring) (code : jsstring)
  : ComplexityResult.t :=
  let lines := map trim (split_on Ch.lf code) in
  let m := fold_left (fun m line => scan_line code m (toLowerCase line)) lines
             (mkMarkers false false false false false) in
  let '(timeComplexity, explanation) :=
    if hasNestedLoops m then
      (quadratic,
       lit "The code contains nested loops, resulting in quadratic time complexity.")
    else if hasSingleLoop m then
      (lit "O(n)",
       lit "The code contains a single loop, resulting in linear time complexity.")
    else if hasRecursion m then
      (exponential,
       lit "The code contains recursion, potentially resulting in exponential time complexity.")
    else
      (lit "O(1)",
       lit "The code appears to have constant time and space complexity.") in
  let '(spaceComplexity, explanation) :=
    if hasLinearSpace m then
      (lit "O(n)",
       explanation
       ++ lit " The space complexity is linear due to dynamic data structure creation.")
    else if hasExtraSpace m then
      (lit "O(n)",
       explanation ++ lit " The space complexity is linear due to auxiliary space usage.")
    else (lit "O(1)", explanation) in
  ComplexityResult.mk timeComplexity spaceComplexity explanation.

(** ** Rendering the solution: [parseSolutionText]

    The text is split on the expression [\*\*.*?\*\*], global and in a
    capture group: the result has the pieces of the text between the
    matches and, for the capture, the matches themselves, in the order of
    the text. A match is two asterisks, as few units as possible, none of
    them a line terminator, and two asterisks. *)

Definition line_terminator (c : N) : bool :=
  N.eqb c 10 || N.eqb c 13 || N.eqb c 8232 || N.eqb c 8233.

Definition stars : jsstring := [42%N; 42%N].

(** What [.*?\*\*] matches at the front of [s]. *)
Fixpoint lazy_stars (s : jsstring) : option jsstring :=
  match s with
  | [] => None
  | c :: r =>
      if startsWith s stars then Some stars
      else if line_terminator c then None
      else option_map (cons c) (lazy_stars r)
  end.

(** What the whole expression matches at the front of [s]. *)
Definition bold_at (s : jsstring) : option jsstring :=
  if startsWith s stars then option_map (app stars) (lazy_stars (skipn 2 s))
  else None.

(** The split: [part] is the piece before the next match, reversed, and
    [skip] counts the units of the last match still to pass. *)
Fixpoint split_bold (s : jsstring) (skip : nat) (part : jsstring) : list jsstring :=
  match s with
  | [] => [rev part]
  | c :: r =>
      match skip with
      | S skip' => split_bold r skip' part
      | O =>
          match bold_at s with
          | Some m => rev part :: m :: split_bold r (List.length m - 1) []
          | None => split_bold r 0 (c :: part)
          end
      end
  end.

(** The React nodes [parseSolutionText] returns: a [<strong>] element with
    its key, or a string. *)
Inductive node :=
| strong (key : nat) (content : jsstring)
| plain (part : jsstring).

Fixpoint render_parts (index : nat) (parts : list jsstring) : list node :=
  match parts with
  | [] => []
  | part :: rest =>
      (if startsWith part stars && endsWith part stars
       then strong index (slice_2_m2 part)
       else plain part)
      :: render_parts (S index) rest
  end.

Definition parseSolutionText (text : jsstring) : list node :=
  render_parts 0 (split_bold text 0 []).

(** ** The form: [handleClear], [getApiKeyPlaceholder], [getApiKeyLabel] *)

Definition with_code (s : jsstring) (st : AppState) : AppState :=
  mkState s (problem st) (apiKey st) (model st) (loading st) (result st) (error st).

Definition with_problem (s : jsstring) (st : AppState) : AppState :=
  mkState (code st) s (apiKey st) (model st) (loading st) (result st) (error st).

Definition with_apiKey (s : jsstring) (st : AppState) : AppState :=
  mkState (code st) (problem st) s (model st) (loading st) (result st) (error st).

Definition setCode (s : jsstring) : M unit := fun st tr => (inr tt, with_code s st, tr).
Definition setProblem (s : jsstring) : M unit := fun st tr => (inr tt, with_problem s st, tr).
Definition setApiKey (s : jsstring) : M unit := fun st tr => (inr tt, with_apiKey s st, tr).

Definition handleClear : M unit :=
  setCode [] ;;
  setProblem [] ;;
  setApiKey [] ;;
  setResult None ;;
  setError [].

Definition getApiKeyPlaceholder (st : AppState) : jsstring :=
  let selectedModel := find_model (model st) in
  match option_map AIModel.provider selectedModel with
  | Some google => lit "AIza..."
  | Some openai => lit "sk-..."
  | Some anthropic => lit "sk-ant-..."
  | Some replicate => lit "r8_..."
  | None => lit "Enter API key..."
  end.

Definition getApiKeyLabel (st : AppState) : jsstring :=
  let selectedModel := find_model (model st) in
  match option_map AIModel.provider selectedModel with
  | Some google => lit "Google AI API Key"
  | Some openai => lit "OpenAI API Key"
  | Some anthropic => lit "Anthropic API Key"
  | Some replicate => lit "Replicate API Key"
  | None => lit "API Key"
  end.

(** ** The words of the specification

    The definitions below follow the specification, not the source; the
    theorems compare them with the code. *)

(** The outcome of the extractor, and how a run of [extractJsonFromText]
    reads as one: a returned value is [Parsed], either of its two errors is
    [NotFound]. *)
Inductive ExtractionOutcome :=
| Parsed (object : json)
| NotFound.

Definition outcome_of (r : thrown + json) : ExtractionOutcome :=
  match r with
  | inr object => Parsed object
  | inl _ => NotFound
  end.

Fixpoint indexOf (c : N) (s : jsstring) : option nat :=
  match s with
  | [] => None
  | x :: r => if N.eqb x c then Some 0%nat else option_map S (indexOf c r)
  end.

Fixpoint lastIndexOf (c : N) (s : jsstring) : option nat :=
  match s with
  | [] => None
  | x :: r =>
      match lastIndexOf c r with
      | Some j => Some (S j)
      | None => if N.eqb x c then Some 0%nat else None
      end
  end.

(** The code units at the positions [i], ..., [j - 1]. *)
Definition slice (i j : nat) (s : jsstring) : jsstring := firstn (j - i) (skipn i s).

(** The extractor in the words of the specification: the whole text, then
    the text from the first opening brace to the last closing brace, both
    included, then [NotFound]. *)
Definition extract_spec (text : jsstring) : ExtractionOutcome :=
  match JSON_parse text with
  | Some object => Parsed object
  | None =>
      match indexOf Ch.lbrace text, lastIndexOf Ch.rbrace text with
      | Some i, Some j =>
          match JSON_parse (slice i (S j) text) with
          | Some object => Parsed object
          | None => NotFound
          end
      | _, _ => NotFound
      end
  end.

(** The requirement of the validator in the words of the specification: a
    non-empty string at each of the three keys. *)
Definition nonempty_string (x : any) : bool :=
  match x with
  | Some (JStr (_ :: _)) => true
  | _ => false
  end.

Definition three_nonempty_strings (object : json) : bool :=
  nonempty_string (prop object "problem")
  && nonempty_string (prop object "solution")
  && nonempty_string (prop object "codeSnippet").

(** What the code requires instead: a truthy value at each of the keys. *)
Definition three_truthy (object : json) : bool :=
  truthy (prop object "problem")
  && truthy (prop object "solution")
  && truthy (prop object "codeSnippet").

(** An object that has the three required keys. *)
Definition has_key (object : json) (name : string) : bool :=
  match prop object name with
  | Some _ => true
  | None => false
  end.

Definition three_keys (object : json) : bool :=
  has_key object "problem" && has_key object "solution"
  && has_key object "codeSnippet".

(** The validator as the specification words it: a result exactly for the
    objects with a non-empty string at each of the three keys. *)
Definition validator_spec (object : json) : Prop :=
  (exists r, validateDebugResult object = inr r)
  <-> three_nonempty_strings object = true.

(** A field that is empty or holds white space only. *)
Definition blank (s : jsstring) : bool := forallb js_whitespace s.

(** [a] occurs in [s] as it is, in one piece. *)
Definition embeds (a s : jsstring) : Prop := exists pre post, s = pre ++ a ++ post.

(** The text a request carries to the model. *)
Definition outbound_prompt (r : request) : jsstring :=
  match r with
  | GenerateContent _ _ prompt => prompt
  | ChatCompletionsCreate _ _ _ user => user
  | MessagesCreate _ _ content => content
  | ReplicateRun _ _ prompt => prompt
  end.

(** The provider a request goes to. *)
Definition provider_of (r : request) : Provider :=
  match r with
  | GenerateContent _ _ _ => google
  | ChatCompletionsCreate _ _ _ _ => openai
  | MessagesCreate _ _ _ => anthropic
  | ReplicateRun _ _ _ => replicate
  end.

(** The request each handler sends for the state it runs in, what the world
    answers when the call throws, and the message the handler falls back on
    when the thrown value is not an [Error]. *)
Definition adapter_request (p : Provider) (st : AppState) : request :=
  match p with
  | google =>
      GenerateContent (apiKey st) (model st) (prompt_text (code st) (problem st))
  | openai =>
      ChatCompletionsCreate (apiKey st) (model st) openai_system
        (openai_user (code st) (problem st))
  | anthropic =>
      MessagesCreate (apiKey st) claude_model (prompt_text (code st) (problem st))
  | replicate =>
      ReplicateRun (apiKey st) llama_version (prompt_text (code st) (problem st))
  end.



Definition fallback (p : Provider) : jsstring :=
  match p with
  | google => lit "Failed to process Gemini response"
  | openai => lit "Failed to process OpenAI response"
  | anthropic => lit "Failed to process Claude response"
  | replicate => lit "Failed to process Llama response"
  end.

(** The instruction that precedes the format in every prompt; the sentence
    starts with "respond" in one template and with "Respond" in the other. *)
Definition only_json : jsstring :=
  lit "espond ONLY with a JSON object in this exact format:" ++ nl ++ format_block.

(** The states of the controller that a trace event enters. *)
Inductive Stage := Building | Calling | Extracting | Validating.

Definition stage_of (ev : event) : Stage :=
  match ev with
  | EvLookup _ => Building
  | EvCall _ => Calling
  | EvExtract _ => Extracting
  | EvValidate _ => Validating
  end.

(** A trace that goes through the stages once, in order, and stops at any
    of them. *)
Definition single_pass (tr : list event) : Prop :=
  exists rest, map stage_of tr ++ rest = [Building; Calling; Extracting; Validating].

Definition is_call (ev : event) : bool :=
  match ev with EvCall _ => true | _ => false end.


(** What the page shows after a run: the error box when [error] is not
    empty, the result panel when [result] is not [null]. *)
Definition shows_error (st : AppState) : bool := nonempty (error st).
Definition shows_result (st : AppState) : bool :=
  match result st with Some _ => true | None => false end.

(** ** Running the parser over a prefix *)

Fixpoint steps (st : state) (s : jsstring) : option state :=
  match s with
  | [] => Some st
  | c :: r =>
      match step st c with
      | Some st' => steps st' r
      | None => None
      end
  end.

Definition run_opt (o : option state) (s : jsstring) : option json :=
  match o with
  | Some st => run st s
  | None => None
  end.

(** A value is followed by the end of the text, a comma or a closing bracket
    or brace. *)
Definition delimiter (c : N) : bool :=
  N.eqb c Ch.comma || N.eqb c Ch.rbrack || N.eqb c Ch.rbrace.

Definition closes (rest : jsstring) : bool :=
  match rest with
  | [] => true
  | c :: _ => delimiter c
  end.

(** ** Definitions for the proofs about the parser *)

(** The lexer after the integer part [int] of a literal of sign [neg]. *)
Definition after_int (neg : bool) (int : list N) (ns : numstate) : Prop :=
  (ns = NZero neg /\ int = [0%N]) \/ (exists ds, ns = NInt neg ds /\ rev ds = int).

(** A member of an object as [serialize] writes it. *)
Definition member (kv : jsstring * json) : jsstring :=
  let '(k, x) := kv in quote k ++ Ch.colon :: serialize x.

(** The parser, about to read a value, reads the serialisation of [v] and
    hands [v] to the stack. *)
Definition reads_back (v : json) : Prop :=
  forall (b : bool) (K : list frame) (rest : jsstring),
    closes rest = true ->
    run (LIdle, PValue b K) (serialize v ++ rest) = run (LIdle, deliver v K) rest.

(** What holds of the parser on the way: the values assembled so far are
    well formed, and so are the digits read so far of a number. *)
Definition frame_ok (f : frame) : bool :=
  match f with
  | FArr acc => wf_json (JArr acc)
  | FObj acc _ => wf_json (JObj acc)
  end.

Definition pstate_ok (p : pstate) : bool :=
  match p with
  | PValue _ K => forallb frame_ok K
  | PArrNext acc K => wf_json (JArr acc) && forallb frame_ok K
  | PObjKey _ acc K => wf_json (JObj acc) && forallb frame_ok K
  | PObjColon acc _ K => wf_json (JObj acc) && forallb frame_ok K
  | PObjNext acc K => wf_json (JObj acc) && forallb frame_ok K
  | PDone v => wf_json v
  end.

Definition token_ok (t : token) : bool :=
  match t with
  | TNum n => wf_number n
  | _ => true
  end.

(** An integer part that started with a digit from 1 to 9. *)
Definition nonzero_int (int : list N) : bool :=
  match int with
  | [] => false
  | d :: _ => negb (N.eqb d 0) && all_digits int
  end.

Definition numstate_ok (ns : numstate) : bool :=
  match ns with
  | NMinus => true
  | NZero _ => true
  | NInt _ ds => nonzero_int (rev ds)
  | NDot _ int => wf_int int
  | NFrac _ int fs => wf_int int && all_digits fs
  | NE _ int frac => wf_int int && all_digits frac
  | NESign _ int frac _ => wf_int int && all_digits frac
  | NExp _ int frac _ es => wf_int int && all_digits frac && nonempty es && all_digits es
  end.

Definition state_ok (st : state) : bool :=
  let (l, p) := st in
  pstate_ok p
  && match l with
     | LNum ns => numstate_ok ns
     | LLit _ t => token_ok t
     | _ => true
     end.

(** ** Definitions for the dispatch *)

(** The state in which the handlers start. *)
Definition started (st : AppState) : AppState :=
  with_result None (with_error [] (with_loading true st)).

(** The result [validateDebugResult] makes of an object. *)
Definition as_result (object : json) : DebugResult.t :=
  DebugResult.mk (prop object "problem") (prop object "solution")
                 (prop object "codeSnippet").

(** Unfolding a dispatch, and the cases of what the world answers. *)
#[local] Arguments find_model : simpl never.

Ltac unfold_dispatch :=
  unfold dispatch, handleDebug, handleGeminiDebug, handleOpenAIDebug,
    handleClaudeDebug, handleLlamaDebug, construct, call, extract, validate,
    try_finally, try_catch, bind, ret, throw, lift, get, log,
    setLoading, setResult, setError.

Ltac split_cases :=
  repeat match goal with
         | |- context [match ?x with _ => _ end] =>
             lazymatch x with
             | context [match _ with _ => _ end] => fail
             | _ => destruct x eqn:?
             end; cbn -[lit]
         end.

(** ** Sample answers, worlds and forms *)

(** The answer of the first end-to-end scenario of the specification. *)
Definition off_by_one : json :=
  JObj [(lit "problem", JStr (lit "off-by-one"));
        (lit "solution", JStr (lit "use < not <="));
        (lit "codeSnippet", JStr (lit "for(i=0;i<=n;i++)"))].

(** The answer of the second scenario: the object between two pieces of
    prose, with a dash (U+2014) in the second. *)
Definition null_deref : json :=
  JObj [(lit "problem", JStr (lit "null deref"));
        (lit "solution", JStr (lit "check for null"));
        (lit "codeSnippet", JStr (lit "x.value"))].

Definition in_prose : jsstring :=
  lit "I think the issue is here: " ++ serialize null_deref
  ++ lit " " ++ [8212%N] ++ lit " let me know if that helps.".

(** A number, an empty object and an empty array at the three keys. *)
Definition not_strings : json :=
  JObj [(lit "problem", JNum (mkNumber false [1%N] [] None));
        (lit "solution", JObj []);
        (lit "codeSnippet", JArr [])].

(** Every provider answers with the text [text]. *)
Definition reply_world (text : jsstring) : World := {|
  new_client := fun _ _ _ => None;
  generateContent := fun _ _ _ => inr text;
  chat_completions_create := fun _ _ _ _ => inr [Some text];
  messages_create := fun _ _ _ => inr [text];
  replicate_run := fun _ _ _ => inr (JStr text)
|}.

(** Every call throws [e]. *)
Definition failing_world (e : thrown) : World := {|
  new_client := fun _ _ _ => None;
  generateContent := fun _ _ _ => inl e;
  chat_completions_create := fun _ _ _ _ => inl e;
  messages_create := fun _ _ _ => inl e;
  replicate_run := fun _ _ _ => inl e
|}.

(** Replicate answers with the text in fragments, and the first completion
    of OpenAI has no content. *)
Definition fragments (text : jsstring) : json :=
  JArr (map (fun c => JStr [c]) text).

Definition fragments_world (text : jsstring) : World := {|
  new_client := fun _ _ _ => None;
  generateContent := fun _ _ _ => inr text;
  chat_completions_create := fun _ _ _ _ => inr [None];
  messages_create := fun _ _ _ => inr [text];
  replicate_run := fun _ _ _ => inr (fragments text)
|}.

(** A filled form with the model [id] selected. *)
Definition ask (id : string) : AppState :=
  mkState (lit "for(i=0;i<=n;i++)") (lit "the loop runs once too often")
          (lit "secret") (lit id) false None [].

(** ** Definitions for the rest of the component *)

(** The lines [analyzeComplexity] tests: split at the line feeds, trimmed,
    in lower case. *)
Definition lowered_lines (toLowerCase : jsstring -> jsstring) (code : jsstring)
  : list jsstring :=
  map toLowerCase (map trim (split_on Ch.lf code)).

Definition count (f : jsstring -> bool) (lines : list jsstring) : nat :=
  List.length (filter f lines).

Definition is_upper (c : N) : bool := N.leb 65 c && N.leb c 90.

(** The case mapping on the letters of ASCII, the other units as they
    are. *)
Definition lower_ascii (s : jsstring) : jsstring :=
  map (fun c => if is_upper c then (c + 32)%N else c) s.

(** The text has a closing brace after its first opening brace. *)
Definition has_braces (text : jsstring) : bool :=
  match indexOf Ch.lbrace text, lastIndexOf Ch.rbrace text with
  | Some i, Some j => Nat.ltb i j
  | _, _ => false
  end.

(** The form after [handleClear]. *)
Definition cleared (st : AppState) : AppState :=
  mkState [] [] [] (model st) (loading st) None [].

(** Two forms with the same four inputs. *)
Definition same_inputs (st st' : AppState) : Prop :=
  code st = code st' /\ problem st = problem st'
  /\ apiKey st = apiKey st' /\ model st = model st'.

(** The state an answer leads to, from the state in which the handlers
    start: the error of the extractor, else the error of the validator, else
    the result. *)
Definition answered (text : jsstring) (st : AppState) : AppState :=
  match extractJsonFromText text with
  | inl e => with_error (message_or [] e) st
  | inr v =>
      match validateDebugResult v with
      | inl e => with_error (message_or [] e) st
      | inr r => with_result (Some r) st
      end
  end.

(** The constructor of every client throws [e]. *)
Definition no_client_world (e : thrown) : World := {|
  new_client := fun _ _ _ => Some e;
  generateContent := fun _ _ _ => inr [];
  chat_completions_create := fun _ _ _ _ => inr [];
  messages_create := fun _ _ _ => inr [];
  replicate_run := fun _ _ _ => inr JNull
|}.

(** ** [JSON.stringify], where the literals tell what it writes

    [JSON.stringify] writes a number from its double, not from the literal
    the double was read from: [1.0] comes out as [1], [-0] as [0] and
    [1e400], the double infinity, as [null]. An integer below 2^53 is its own
    double and is written as its digits: on the literals of such integers,
    without a fraction, an exponent or a sign on zero, [serialize] writes
    what [JSON.stringify] writes. An engine lists the keys of an object that
    are made of digits before the others; on the objects without such a key
    the order is the order of insertion, the one of [serialize].
    [JSON_stringify] is defined on these values and on no other. *)

Definition safe_integer (n : number) : bool :=
  match num_frac n, num_exp n with
  | [], None =>
      wf_int (num_int n)
      && N.ltb (digits_value (num_int n)) (2 ^ 53)
      && negb (num_neg n && N.eqb (digits_value (num_int n)) 0)
  | _, _ => false
  end.

Definition digit_string (k : jsstring) : bool := nonempty k && forallb is_digit k.

Fixpoint stringify_exact (v : json) : bool :=
  match v with
  | JNull | JBool _ | JStr _ => true
  | JNum n => safe_integer n
  | JArr l => forallb stringify_exact l
  | JObj m => forallb (fun '(k, x) => negb (digit_string k) && stringify_exact x) m
  end.

Definition JSON_stringify (v : json) : option jsstring :=
  if stringify_exact v then Some (serialize v) else None.

(** An answer with more than the three keys: integers, an array, a nested
    object, and a string with a quote, a backslash and a line feed. *)
Definition integer (neg : bool) (digits : list N) : json :=
  JNum (mkNumber neg digits [] None).

Definition annotated : json :=
  JObj [(lit "problem", JStr (lit "off-by-one"));
        (lit "solution", JStr (lit "use " ++ [Ch.dquote] ++ lit "<" ++ [Ch.dquote; Ch.lf]
                               ++ lit "not \<="));
        (lit "codeSnippet", JStr (lit "for(i=0;i<=n;i++)"));
        (lit "line", integer false [1%N; 2%N]);
        (lit "tags", JArr [JStr (lit "loop"); JBool true; JNull; integer false [0%N];
                           JObj [(lit "depth", integer true [3%N])]])].

(** * Theorems *)

(** ** Strings *)

Lemma str_eqb_eq (a b : jsstring) : str_eqb a b = true <-> a = b.
Proof.
  revert b; induction a as [|x a IH]; intros [|y b]; simpl; split; intro H;
    try reflexivity; try discriminate.
  - apply andb_true_iff in H as [Hx Hr]. apply N.eqb_eq in Hx.
    apply IH in Hr. congruence.
  - injection H as -> ->. rewrite N.eqb_refl. simpl. now apply IH.
Qed.

Lemma str_eqb_refl (a : jsstring) : str_eqb a a = true.
Proof. now apply str_eqb_eq. Qed.

Lemma str_eqb_neq (a b : jsstring) : str_eqb a b = false <-> a <> b.
Proof.
  split.
  - intros H E. apply str_eqb_eq in E. congruence.
  - intro H. destruct (str_eqb a b) eqn:E; [|reflexivity].
    apply str_eqb_eq in E. contradiction.
Qed.

Lemma trimStart_nil_iff (s : jsstring) : trimStart s = [] <-> blank s = true.
Proof.
  induction s as [|c r IH]; simpl.
  - tauto.
  - destruct (js_whitespace c); simpl.
    + exact IH.
    + split; discriminate.
Qed.

Lemma blank_rev (s : jsstring) : blank (rev s) = blank s.
Proof.
  unfold blank. induction s as [|c r IH]; simpl; [reflexivity|].
  rewrite forallb_app, IH. simpl. rewrite andb_true_r. apply andb_comm.
Qed.

(** [trim] leaves nothing exactly of the blank strings. *)
Lemma trim_nil_iff (s : jsstring) : trim s = [] <-> blank s = true.
Proof.
  unfold trim, trimEnd. split.
  - intro H. apply (f_equal (@rev N)) in H. rewrite rev_involutive in H.
    simpl in H. apply trimStart_nil_iff in H. rewrite blank_rev in H.
    destruct (blank s) eqn:B; [reflexivity|].
    assert (T : trimStart s <> []) by (intro E; apply trimStart_nil_iff in E; congruence).
    clear B. induction s as [|c r IH]; simpl in *; [congruence|].
    destruct (js_whitespace c) eqn:W.
    + auto.
    + simpl in H. rewrite W in H. discriminate.
  - intro B. apply trimStart_nil_iff in B. rewrite B. reflexivity.
Qed.

(** ** The parser on a text in two parts *)

Lemma steps_app (st : state) (a b : jsstring) :
  steps st (a ++ b) = match steps st a with
                      | Some st' => steps st' b
                      | None => None
                      end.
Proof.
  revert st; induction a as [|c a IH]; intro st; simpl; [reflexivity|].
  destruct (step st c); [apply IH | reflexivity].
Qed.

Lemma run_app (st : state) (a b : jsstring) :
  run st (a ++ b) = run_opt (steps st a) b.
Proof.
  revert st; induction a as [|c a IH]; intro st; simpl; [reflexivity|].
  destruct (step st c); [apply IH | reflexivity].
Qed.

Lemma run_steps (st st' : state) (a b : jsstring) :
  steps st a = Some st' -> run st (a ++ b) = run st' b.
Proof. intro H. rewrite run_app, H. reflexivity. Qed.

(** ** String literals are read back *)

Lemma below_in (n : nat) (d : N) :
  (d < N.of_nat n)%N -> In d (map N.of_nat (seq 0 n)).
Proof.
  intro H. apply in_map_iff. exists (N.to_nat d). split.
  - apply N2Nat.id.
  - apply in_seq. lia.
Qed.

Lemma hex_value_digit (d : N) : (d < 16)%N -> hex_value (hex_digit d) = Some d.
Proof.
  intro H.
  assert (A : forallb (fun d => match hex_value (hex_digit d) with
                                | Some x => N.eqb x d
                                | None => false
                                end) (map N.of_nat (seq 0 16)) = true)
    by (vm_compute; reflexivity).
  rewrite forallb_forall in A. specialize (A d (below_in 16 d H)).
  destruct (hex_value (hex_digit d)); [|discriminate].
  apply N.eqb_eq in A. congruence.
Qed.

Lemma hex_recompose (c : N) :
  (c < 65536)%N ->
  ((((0 * 16 + c / 4096) * 16 + (c / 256) mod 16) * 16 + (c / 16) mod 16) * 16
   + c mod 16 = c)%N.
Proof. intro H. zify. Z.to_euclidean_division_equations. lia. Qed.

Lemma step_hex (acc : jsstring) (n : nat) (v : N) (p : pstate) (c d : N) :
  hex_value c = Some d ->
  step (LHex acc (S (S n)) v, p) c = Some (LHex acc (S n) (v * 16 + d)%N, p).
Proof. intro H. cbn [step]. rewrite H. reflexivity. Qed.

Lemma step_hex_last (acc : jsstring) (v : N) (p : pstate) (c d : N) :
  hex_value c = Some d ->
  step (LHex acc 1 v, p) c = Some (LStr ((v * 16 + d)%N :: acc), p).
Proof. intro H. cbn [step]. rewrite H. reflexivity. Qed.

Lemma steps_unicode_escape (acc : jsstring) (p : pstate) (c : N) :
  (c < 65536)%N ->
  steps (LStr acc, p) (unicode_escape c) = Some (LStr (c :: acc), p).
Proof.
  intro H. unfold unicode_escape. cbn [steps].
  assert (D1 : (c / 4096 < 16)%N) by (apply N.Div0.div_lt_upper_bound; simpl; lia).
  assert (D2 : ((c / 256) mod 16 < 16)%N) by (apply N.mod_lt; discriminate).
  assert (D3 : ((c / 16) mod 16 < 16)%N) by (apply N.mod_lt; discriminate).
  assert (D4 : (c mod 16 < 16)%N) by (apply N.mod_lt; discriminate).
  change (step (LStr acc, p) Ch.backslash) with (Some (LEsc acc, p)). cbn iota.
  change (step (LEsc acc, p) 117%N) with (Some (LHex acc 4 0%N, p)). cbn iota.
  rewrite (step_hex _ _ _ _ _ _ (hex_value_digit _ D1)).
  rewrite (step_hex _ _ _ _ _ _ (hex_value_digit _ D2)).
  rewrite (step_hex _ _ _ _ _ _ (hex_value_digit _ D3)).
  rewrite (step_hex_last _ _ _ _ _ (hex_value_digit _ D4)).
  rewrite (hex_recompose _ H). reflexivity.
Qed.

Lemma step_str_raw (acc : jsstring) (p : pstate) (c : N) :
  c <> Ch.dquote -> c <> Ch.backslash -> (32 <= c)%N ->
  step (LStr acc, p) c = Some (LStr (c :: acc), p).
Proof.
  intros Hq Hb Hc. cbn [step].
  apply N.eqb_neq in Hq, Hb. rewrite Hq, Hb.
  assert (L : N.ltb c 32 = false) by (apply N.ltb_ge; exact Hc).
  rewrite L. reflexivity.
Qed.

Lemma steps_escape_unit (acc : jsstring) (p : pstate) (c : N) :
  steps (LStr acc, p) (escape_unit c) = Some (LStr (c :: acc), p).
Proof.
  unfold escape_unit.
  destruct (N.eqb_spec c Ch.dquote) as [->|Hq]; [reflexivity|].
  destruct (N.eqb_spec c Ch.backslash) as [->|Hb]; [reflexivity|].
  destruct (N.eqb_spec c 8) as [->|H8]; [reflexivity|].
  destruct (N.eqb_spec c 12) as [->|H12]; [reflexivity|].
  destruct (N.eqb_spec c 10) as [->|H10]; [reflexivity|].
  destruct (N.eqb_spec c 13) as [->|H13]; [reflexivity|].
  destruct (N.eqb_spec c 9) as [->|H9]; [reflexivity|].
  destruct (N.ltb_spec c 32) as [Hlt|Hge].
  - apply steps_unicode_escape. lia.
  - cbn [steps]. rewrite step_str_raw by assumption. reflexivity.
Qed.

Lemma surrogate_raw (acc : jsstring) (p : pstate) (c : N) :
  is_high_surrogate c = true \/ is_low_surrogate c = true ->
  step (LStr acc, p) c = Some (LStr (c :: acc), p) /\ (c < 65536)%N.
Proof.
  unfold is_high_surrogate, is_low_surrogate.
  intros [H|H]; apply andb_true_iff in H as [H1 H2];
    apply N.leb_le in H1, H2;
    (split; [apply step_str_raw; unfold Ch.dquote, Ch.backslash; lia | lia]).
Qed.

Lemma steps_quote_units_bounded (n : nat) :
  forall (s acc : jsstring) (p : pstate),
    (List.length s <= n)%nat ->
    steps (LStr acc, p) (quote_units s) = Some (LStr (rev s ++ acc), p).
Proof.
  induction n as [|n IH]; intros s acc p Hn.
  - destruct s; [reflexivity | simpl in Hn; lia].
  - destruct s as [|c r]; [reflexivity|].
    simpl in Hn. cbn [quote_units rev].
    rewrite <- app_assoc. cbn [app].
    destruct (is_high_surrogate c) eqn:Hh.
    + destruct (surrogate_raw acc p c (or_introl Hh)) as [Sc Bc].
      destruct r as [|d r'].
      * rewrite steps_unicode_escape by exact Bc. reflexivity.
      * destruct (is_low_surrogate d) eqn:Hl.
        -- destruct (surrogate_raw (c :: acc) p d (or_intror Hl)) as [Sd _].
           cbn [steps]. rewrite Sc, Sd.
           rewrite IH by (simpl in Hn; lia).
           cbn [rev]. rewrite <- !app_assoc. reflexivity.
        -- rewrite steps_app, steps_unicode_escape by exact Bc.
           apply IH. simpl in *. lia.
    + destruct (is_low_surrogate c) eqn:Hl.
      * destruct (surrogate_raw acc p c (or_intror Hl)) as [_ Bc].
        rewrite steps_app, steps_unicode_escape by exact Bc.
        apply IH. lia.
      * rewrite steps_app, steps_escape_unit. apply IH. lia.
Qed.

Lemma steps_quote_units (s acc : jsstring) (p : pstate) :
  steps (LStr acc, p) (quote_units s) = Some (LStr (rev s ++ acc), p).
Proof. apply (steps_quote_units_bounded (List.length s)). apply le_n. Qed.

(** A quoted string is one string token. *)
Lemma steps_quote (s : jsstring) (p : pstate) :
  steps (LIdle, p) (quote s) = emit (TStr s) p.
Proof.
  unfold quote. cbn [steps].
  change (step (LIdle, p) Ch.dquote) with (Some (LStr [], p)). cbn iota.
  rewrite steps_app, steps_quote_units. cbn [steps step].
  change (N.eqb Ch.dquote Ch.dquote) with true. cbn iota.
  rewrite app_nil_r, rev_involutive.
  destruct (emit (TStr s) p); reflexivity.
Qed.

(** ** Number literals are read back *)

Lemma step_num (ns ns' : numstate) (p : pstate) (c : N) :
  num_step ns c = Some ns' -> step (LNum ns, p) c = Some (LNum ns', p).
Proof. intro H. cbn [step]. rewrite H. reflexivity. Qed.

Lemma digit_char (d : N) :
  (d < 10)%N ->
  is_digit (48 + d) = true /\ digit_of (48 + d) = d
  /\ N.eqb (48 + d) 48 = N.eqb d 0.
Proof.
  intro H. unfold is_digit, digit_of. repeat split.
  - apply andb_true_iff. split; apply N.leb_le; lia.
  - lia.
  - destruct (N.eqb_spec d 0) as [->|Hd]; [reflexivity|].
    apply N.eqb_neq. lia.
Qed.

Lemma all_digits_cons (d : N) (ds : list N) :
  all_digits (d :: ds) = true -> (d < 10)%N /\ all_digits ds = true.
Proof.
  unfold all_digits. simpl. intro H. apply andb_true_iff in H as [H1 H2].
  apply N.ltb_lt in H1. tauto.
Qed.

Lemma steps_int_digits (neg : bool) (p : pstate) (ds acc : list N) :
  all_digits ds = true ->
  steps (LNum (NInt neg acc), p) (digit_chars ds)
  = Some (LNum (NInt neg (rev ds ++ acc)), p).
Proof.
  revert acc; induction ds as [|d ds IH]; intros acc H; [reflexivity|].
  apply all_digits_cons in H as [Hd H].
  destruct (digit_char d Hd) as (D1 & D2 & _).
  cbn [digit_chars map steps].
  rewrite (step_num (NInt neg acc) (NInt neg (d :: acc)))
    by (cbn [num_step]; rewrite D1, D2; reflexivity).
  fold (digit_chars ds). rewrite IH by exact H.
  cbn [rev]. rewrite <- app_assoc. reflexivity.
Qed.

Lemma steps_frac_digits (neg : bool) (int : list N) (p : pstate) (ds acc : list N) :
  all_digits ds = true ->
  steps (LNum (NFrac neg int acc), p) (digit_chars ds)
  = Some (LNum (NFrac neg int (rev ds ++ acc)), p).
Proof.
  revert acc; induction ds as [|d ds IH]; intros acc H; [reflexivity|].
  apply all_digits_cons in H as [Hd H].
  destruct (digit_char d Hd) as (D1 & D2 & _).
  cbn [digit_chars map steps].
  rewrite (step_num (NFrac neg int acc) (NFrac neg int (d :: acc)))
    by (cbn [num_step]; rewrite D1, D2; reflexivity).
  fold (digit_chars ds). rewrite IH by exact H.
  cbn [rev]. rewrite <- app_assoc. reflexivity.
Qed.

Lemma steps_exp_digits (neg : bool) (int frac : list N) (eneg : bool)
    (p : pstate) (ds acc : list N) :
  all_digits ds = true ->
  steps (LNum (NExp neg int frac eneg acc), p) (digit_chars ds)
  = Some (LNum (NExp neg int frac eneg (rev ds ++ acc)), p).
Proof.
  revert acc; induction ds as [|d ds IH]; intros acc H; [reflexivity|].
  apply all_digits_cons in H as [Hd H].
  destruct (digit_char d Hd) as (D1 & D2 & _).
  cbn [digit_chars map steps].
  rewrite (step_num (NExp neg int frac eneg acc) (NExp neg int frac eneg (d :: acc)))
    by (cbn [num_step]; rewrite D1, D2; reflexivity).
  fold (digit_chars ds). rewrite IH by exact H.
  cbn [rev]. rewrite <- app_assoc. reflexivity.
Qed.

Lemma after_int_next (neg : bool) (int : list N) (ns : numstate) :
  after_int neg int ns ->
  num_step ns Ch.dot = Some (NDot neg int)
  /\ num_step ns 101%N = Some (NE neg int [])
  /\ num_done ns = Some (mkNumber neg int [] None).
Proof.
  intros [[-> ->]|(ds & -> & <-)]; repeat split; reflexivity.
Qed.

Lemma steps_int (neg : bool) (int : list N) (p : pstate) :
  wf_int int = true ->
  exists ns,
    steps (LIdle, p) ((if neg then [Ch.minus] else []) ++ digit_chars int)
    = Some (LNum ns, p)
    /\ after_int neg int ns.
Proof.
  intro W. destruct int as [|d ds]; [discriminate|].
  assert (Hd : (d < 10)%N /\ (ds <> [] -> d <> 0%N) /\ all_digits ds = true).
  { destruct ds as [|d' ds'].
    - simpl in W. apply N.ltb_lt in W. repeat split; [exact W | congruence].
    - cbn [wf_int] in W. apply andb_true_iff in W as [W0 W1].
      apply all_digits_cons in W1 as [W1 W2]. repeat split; try assumption.
      intros _ E. subst d. discriminate. }
  destruct Hd as (Hd & Hnz & Hds).
  destruct (digit_char d Hd) as (D1 & D2 & D3).
  destruct (N.eqb_spec d 0) as [E|NE].
  - (* the integer part is the single digit zero *)
    subst d. destruct ds as [|d' ds']; [|exfalso; apply Hnz; congruence].
    exists (NZero neg). split; [|left; split; reflexivity].
    destruct neg; reflexivity.
  - exists (NInt neg (rev ds ++ [d])). split.
    + assert (F : steps (LIdle, p) ((if neg then [Ch.minus] else []) ++ [(48 + d)%N])
                  = Some (LNum (NInt neg [d]), p)).
      { destruct neg; cbn [app steps].
        - change (step (LIdle, p) Ch.minus) with (Some (LNum NMinus, p)). cbn iota.
          rewrite (step_num NMinus (NInt true [d])); [reflexivity|].
          cbn [num_step]. rewrite D3, D1, D2. reflexivity.
        - assert (S1 : step (LIdle, p) (48 + d)%N = Some (LNum (NInt false [d]), p)).
          { cbn [step]. unfold idle_step.
            assert (R : forall x, (x < 48 \/ 57 < x)%N -> N.eqb (48 + d) x = false)
              by (intros x Hx; apply N.eqb_neq; lia).
            unfold json_whitespace, Ch.tab, Ch.lf, Ch.cr, Ch.space, Ch.lbrace,
              Ch.rbrace, Ch.lbrack, Ch.rbrack, Ch.colon, Ch.comma, Ch.dquote, Ch.minus.
            rewrite !R by lia. cbn [orb]. rewrite D3, D1, D2. reflexivity. }
          rewrite S1. reflexivity. }
      cbn [digit_chars map]. fold (digit_chars ds).
      change ((48 + d)%N :: digit_chars ds) with ([(48 + d)%N] ++ digit_chars ds).
      rewrite app_assoc, steps_app, F. apply steps_int_digits. exact Hds.
    + right. exists (rev ds ++ [d]). split; [reflexivity|].
      rewrite rev_app_distr, rev_involutive. reflexivity.
Qed.

(** The lexer after the integer and fraction parts. *)
Lemma steps_int_frac (neg : bool) (int frac : list N) (p : pstate) :
  wf_int int = true -> all_digits frac = true ->
  exists ns,
    steps (LIdle, p)
      ((if neg then [Ch.minus] else []) ++ digit_chars int
       ++ match frac with
          | [] => []
          | _ :: _ => Ch.dot :: digit_chars frac
          end)
    = Some (LNum ns, p)
    /\ num_step ns 101%N = Some (NE neg int frac)
    /\ num_done ns = Some (mkNumber neg int frac None).
Proof.
  intros Wi Wf. destruct (steps_int neg int p Wi) as (ns0 & S0 & A0).
  destruct (after_int_next neg int ns0 A0) as (Hdot & He & Hdone).
  rewrite app_assoc, steps_app, S0.
  destruct frac as [|f fs].
  - exists ns0. repeat split; assumption.
  - exists (NFrac neg int (rev (f :: fs))).
    apply all_digits_cons in Wf as [Hf Wf].
    destruct (digit_char f Hf) as (D1 & D2 & _).
    split; [|split; cbn [num_step num_done]; rewrite ?rev_involutive; reflexivity].
    cbn [digit_chars map steps]. fold (digit_chars fs).
    rewrite (step_num ns0 (NDot neg int)) by exact Hdot.
    rewrite (step_num (NDot neg int) (NFrac neg int [f]))
      by (cbn [num_step]; rewrite D1, D2; reflexivity).
    rewrite steps_frac_digits by exact Wf. reflexivity.
Qed.

(** A well-formed literal, printed, leaves the lexer at its end with the
    literal in hand. *)
Lemma steps_print_number (n : number) (p : pstate) :
  wf_number n = true ->
  exists ns,
    steps (LIdle, p) (print_number n) = Some (LNum ns, p)
    /\ num_done ns = Some n.
Proof.
  destruct n as [neg int frac ex]. unfold wf_number, print_number.
  cbn [num_neg num_int num_frac num_exp]. intro W.
  apply andb_true_iff in W as [W We]. apply andb_true_iff in W as [Wi Wf].
  destruct (steps_int_frac neg int frac p Wi Wf) as (ns1 & S1 & He & Hdone).
  destruct ex as [[eneg es]|].
  - apply andb_true_iff in We as [Hne Wes].
    destruct es as [|e es]; [discriminate|].
    apply all_digits_cons in Wes as [Hd Wes].
    destruct (digit_char e Hd) as (D1 & D2 & _).
    exists (NExp neg int frac eneg (rev (e :: es))).
    split; [|cbn [num_done]; rewrite rev_involutive; reflexivity].
    rewrite !app_assoc, steps_app. rewrite <- app_assoc, S1.
    cbn [digit_chars map steps]. fold (digit_chars es).
    rewrite (step_num ns1 (NE neg int frac)) by exact He.
    rewrite (step_num (NE neg int frac) (NESign neg int frac eneg))
      by (destruct eneg; reflexivity).
    rewrite (step_num (NESign neg int frac eneg) (NExp neg int frac eneg [e]))
      by (cbn [num_step]; rewrite D1, D2; reflexivity).
    rewrite steps_exp_digits by exact Wes. reflexivity.
  - exists ns1. rewrite app_nil_r. split; assumption.
Qed.

Lemma num_step_delimiter (ns : numstate) (n : number) (c : N) :
  num_done ns = Some n -> delimiter c = true -> num_step ns c = None.
Proof.
  intros Hd Hc. unfold delimiter in Hc.
  assert (E : c = 44%N \/ c = 93%N \/ c = 125%N).
  { apply orb_true_iff in Hc as [Hc|Hc]; [apply orb_true_iff in Hc as [Hc|Hc]|];
      apply N.eqb_eq in Hc; auto. }
  destruct ns; try discriminate;
    destruct E as [->|[->| ->]]; reflexivity.
Qed.

(** A number token ends where a delimiter or the end of the text follows. *)
Lemma run_number_end (ns : numstate) (n : number) (p : pstate) (rest : jsstring) :
  num_done ns = Some n -> closes rest = true ->
  run (LNum ns, p) rest = run_opt (emit (TNum n) p) rest.
Proof.
  intros Hd Hc. destruct rest as [|c r].
  - cbn [run finish]. rewrite Hd. unfold emit.
    destruct (pstep p (TNum n)) as [p'|]; [|reflexivity].
    cbn [run_opt run finish]. destruct p'; reflexivity.
  - cbn [closes] in Hc. cbn [run step].
    rewrite (num_step_delimiter ns n c Hd Hc), Hd. unfold emit.
    destruct (pstep p (TNum n)) as [p'|]; reflexivity.
Qed.

(** ** Induction on JSON values *)

Lemma json_induction (P : json -> Prop) :
  P JNull ->
  (forall b, P (JBool b)) ->
  (forall n, P (JNum n)) ->
  (forall s, P (JStr s)) ->
  (forall l, Forall P l -> P (JArr l)) ->
  (forall m, Forall (fun kv => P (snd kv)) m -> P (JObj m)) ->
  forall v, P v.
Proof.
  intros HNull HBool HNum HStr HArr HObj.
  fix IH 1. intros [ | b | n | s | l | m].
  - exact HNull.
  - apply HBool.
  - apply HNum.
  - apply HStr.
  - apply HArr. induction l as [|x l IHl]; constructor; [apply IH | exact IHl].
  - apply HObj. induction m as [|[k x] m IHm]; constructor; [apply IH | exact IHm].
Qed.

(** ** [JSON.parse] reads back what [serialize] writes *)

Lemma set_prop_fresh (k : jsstring) (v : json) (acc : list (jsstring * json)) :
  existsb (str_eqb k) (map fst acc) = false ->
  set_prop k v acc = acc ++ [(k, v)].
Proof.
  induction acc as [|[k' v'] acc IH]; simpl; intro H; [reflexivity|].
  apply orb_false_iff in H as [H1 H2]. rewrite H1, IH by exact H2. reflexivity.
Qed.

Lemma str_eqb_sym (a b : jsstring) : str_eqb a b = str_eqb b a.
Proof.
  destruct (str_eqb a b) eqn:E.
  - apply str_eqb_eq in E. subst. symmetry. apply str_eqb_refl.
  - symmetry. apply str_eqb_neq. apply str_eqb_neq in E. congruence.
Qed.

Lemma distinct_app_fresh (a : list jsstring) (k : jsstring) (b : list jsstring) :
  distinct (a ++ k :: b) = true ->
  existsb (str_eqb k) a = false /\ distinct ((a ++ [k]) ++ b) = true.
Proof.
  intro H. split.
  - induction a as [|x a IH]; [reflexivity|].
    simpl in H. apply andb_true_iff in H as [H1 H2].
    simpl. rewrite (IH H2), orb_false_r.
    apply negb_true_iff in H1. rewrite existsb_app in H1.
    apply orb_false_iff in H1 as [_ H1]. simpl in H1.
    apply orb_false_iff in H1 as [H1 _]. rewrite str_eqb_sym. exact H1.
  - rewrite <- app_assoc. exact H.
Qed.

Lemma run_elements (l : list json) :
  Forall reads_back l -> l <> [] ->
  forall (b : bool) (acc : list json) (K : list frame) (rest : jsstring),
    run (LIdle, PValue b (FArr acc :: K))
        (join [Ch.comma] (map serialize l) ++ Ch.rbrack :: rest)
    = run (LIdle, deliver (JArr (acc ++ l)) K) rest.
Proof.
  induction 1 as [|x l Hx Hl IH]; intros Hne b acc K rest; [congruence|].
  cbn [map join]. destruct l as [|y l'].
  - cbn [map]. rewrite (Hx b (FArr acc :: K) (Ch.rbrack :: rest) eq_refl).
    reflexivity.
  - cbn [map]. rewrite <- !app_assoc.
    rewrite (Hx b (FArr acc :: K)) by reflexivity.
    cbn [deliver app run step]. change (idle_step (PArrNext (acc ++ [x]) K) Ch.comma)
      with (Some (LIdle, PValue false (FArr (acc ++ [x]) :: K))). cbn iota.
    specialize (IH ltac:(discriminate) false (acc ++ [x]) K rest).
    cbn [map] in IH. rewrite IH, <- app_assoc. reflexivity.
Qed.

Lemma run_members (m : list (jsstring * json)) :
  Forall (fun kv => reads_back (snd kv)) m -> m <> [] ->
  forall (b : bool) (acc : list (jsstring * json)) (K : list frame) (rest : jsstring),
    distinct (map fst (acc ++ m)) = true ->
    run (LIdle, PObjKey b acc K)
        (join [Ch.comma] (map member m) ++ Ch.rbrace :: rest)
    = run (LIdle, deliver (JObj (acc ++ m)) K) rest.
Proof.
  induction 1 as [|[k x] m Hx Hm IH]; intros Hne b acc K rest D; [congruence|].
  rewrite map_app in D. cbn [map fst] in D.
  apply distinct_app_fresh in D as [Fresh D].
  assert (Key : forall tail,
             closes tail = true ->
             run (LIdle, PObjKey b acc K) (member (k, x) ++ tail)
             = run (LIdle, PObjNext (acc ++ [(k, x)]) K) tail).
  { intros tail Ht. unfold member. rewrite <- app_assoc.
    rewrite run_app, steps_quote.
    replace (emit (TStr k) (PObjKey b acc K)) with (Some (LIdle, PObjColon acc k K))
      by (destruct b; reflexivity).
    cbn [run_opt app run step].
    change (idle_step (PObjColon acc k K) Ch.colon)
      with (Some (LIdle, PValue false (FObj acc k :: K))). cbn iota.
    cbn [snd] in Hx. rewrite (Hx false (FObj acc k :: K) tail Ht). cbn [deliver].
    rewrite set_prop_fresh by exact Fresh. reflexivity. }
  cbn [map join]. destruct m as [|kv m'].
  - cbn [map]. rewrite (Key (Ch.rbrace :: rest) eq_refl). reflexivity.
  - cbn [map]. rewrite <- !app_assoc. rewrite Key by reflexivity.
    cbn [app run step]. change (idle_step (PObjNext (acc ++ [(k, x)]) K) Ch.comma)
      with (Some (LIdle, PObjKey false (acc ++ [(k, x)]) K)). cbn iota.
    specialize (IH ltac:(discriminate) false (acc ++ [(k, x)]) K rest).
    cbn [map] in IH. rewrite IH, <- app_assoc; [reflexivity|].
    rewrite !map_app. exact D.
Qed.

Lemma wf_json_arr (l : list json) :
  wf_json (JArr l) = true -> Forall (fun x => wf_json x = true) l.
Proof. cbn [wf_json]. intro H. apply Forall_forall. apply forallb_forall. exact H. Qed.

Lemma wf_json_obj (m : list (jsstring * json)) :
  wf_json (JObj m) = true ->
  distinct (map fst m) = true /\ Forall (fun kv => wf_json (snd kv) = true) m.
Proof.
  cbn [wf_json]. intro H. apply andb_true_iff in H as [D F]. split; [exact D|].
  apply Forall_forall. intros [k x] Hin.
  rewrite forallb_forall in F. exact (F (k, x) Hin).
Qed.

(** Every well-formed value, serialised and followed by a delimiter or by
    the end of the text, is read as that value. *)
Lemma run_serialize (v : json) : wf_json v = true -> reads_back v.
Proof.
  induction v as [ | c | n | s | l IH | m IH] using json_induction;
    intros W b K rest Hrest.
  - reflexivity.
  - destruct c; reflexivity.
  - cbn [serialize]. cbn [wf_json] in W.
    destruct (steps_print_number n (PValue b K) W) as (ns & S1 & Hd).
    rewrite (run_steps _ _ _ _ S1), (run_number_end ns n _ rest Hd Hrest).
    reflexivity.
  - cbn [serialize]. rewrite run_app, steps_quote. reflexivity.
  - cbn [serialize]. cbn [app run step].
    change (idle_step (PValue b K) Ch.lbrack)
      with (Some (LIdle, PValue true (FArr [] :: K))). cbn iota.
    destruct l as [|x l'].
    + reflexivity.
    + rewrite <- app_assoc. cbn [app].
      rewrite run_elements; [reflexivity | | discriminate].
      apply wf_json_arr in W. clear - IH W.
      induction IH as [|y l Hy Hl IHl]; constructor.
      * apply Hy. now inversion W.
      * apply IHl. now inversion W.
  - cbn [serialize]. cbn [app run step].
    change (idle_step (PValue b K) Ch.lbrace)
      with (Some (LIdle, PObjKey true [] K)). cbn iota.
    apply wf_json_obj in W as [D W].
    destruct m as [|kv m'].
    + reflexivity.
    + rewrite <- app_assoc. cbn [app].
      change (fun '(k, x) => quote k ++ Ch.colon :: serialize x) with member.
      rewrite run_members; [reflexivity | | discriminate | exact D].
      clear - IH W.
      induction IH as [|y l Hy Hl IHl]; constructor.
      * apply Hy. now inversion W.
      * apply IHl. now inversion W.
Qed.

(** [JSON.parse(serialize(v))] is [v]. *)
Lemma JSON_parse_serialize (v : json) :
  wf_json v = true -> JSON_parse (serialize v) = Some v.
Proof.
  intro W. unfold JSON_parse.
  rewrite <- (app_nil_r (serialize v)).
  rewrite (run_serialize v W false [] [] eq_refl). reflexivity.
Qed.

(** ** [JSON.parse] returns well-formed values only *)

Lemma all_digits_app (a b : list N) :
  all_digits (a ++ b) = all_digits a && all_digits b.
Proof. apply forallb_app. Qed.

Lemma all_digits_rev (ds : list N) : all_digits (rev ds) = all_digits ds.
Proof.
  induction ds as [|d ds IH]; [reflexivity|].
  cbn [rev]. rewrite all_digits_app, IH. unfold all_digits. cbn [forallb].
  rewrite andb_true_r. apply andb_comm.
Qed.

Lemma digit_of_digit (c : N) : is_digit c = true -> (digit_of c <? 10)%N = true.
Proof.
  unfold is_digit, digit_of. intro H. apply andb_true_iff in H as [H1 H2].
  apply N.leb_le in H1, H2. apply N.ltb_lt. lia.
Qed.

Lemma nonzero_int_wf (int : list N) : nonzero_int int = true -> wf_int int = true.
Proof.
  destruct int as [|d [|d' r]]; [discriminate | | exact (fun H => H)].
  unfold nonzero_int, all_digits. cbn [forallb wf_int]. intro H.
  apply andb_true_iff in H as [_ H]. apply andb_true_iff in H as [H _]. exact H.
Qed.

Lemma nonzero_int_snoc (int : list N) (d : N) :
  nonzero_int int = true -> (d <? 10)%N = true -> nonzero_int (int ++ [d]) = true.
Proof.
  destruct int as [|x r]; [discriminate|].
  unfold nonzero_int. cbn [app]. intros H Hd.
  apply andb_true_iff in H as [H1 H2]. rewrite H1.
  change (x :: r ++ [d]) with ((x :: r) ++ [d]).
  rewrite all_digits_app, H2. unfold all_digits. cbn [forallb]. rewrite Hd. reflexivity.
Qed.

Lemma num_step_ok (ns ns' : numstate) (c : N) :
  numstate_ok ns = true -> num_step ns c = Some ns' -> numstate_ok ns' = true.
Proof.
  intros Hok Hs. destruct ns; cbn [num_step] in Hs; cbn [numstate_ok] in Hok;
    repeat match type of Hs with
           | (if ?b then _ else _) = _ => destruct b eqn:?
           end;
    try discriminate; injection Hs as <-; cbn [numstate_ok rev app];
    rewrite ?all_digits_rev; try reflexivity; try assumption.
  - (* a first digit, not zero, after the sign *)
    unfold nonzero_int, all_digits. cbn [forallb].
    rewrite (digit_of_digit c) by assumption.
    assert (E : N.eqb (digit_of c) 0 = false).
    { apply N.eqb_neq. unfold digit_of, is_digit in *.
      match goal with H : N.eqb c 48 = false |- _ => apply N.eqb_neq in H end.
      match goal with H : (_ && _) = true |- _ =>
        apply andb_true_iff in H as [H1 H2]; apply N.leb_le in H1 end.
      lia. }
    rewrite E. reflexivity.
  - apply nonzero_int_snoc; [assumption | now apply digit_of_digit].
  - now apply nonzero_int_wf.
  - rewrite (nonzero_int_wf _ Hok). reflexivity.
  - rewrite Hok. unfold all_digits. cbn [forallb].
    rewrite (digit_of_digit c) by assumption. reflexivity.
  - apply andb_true_iff in Hok as [H1 H2]. rewrite H1. unfold all_digits in *.
    cbn [forallb]. rewrite (digit_of_digit c), H2 by assumption. reflexivity.
  - rewrite Hok. unfold all_digits. cbn [forallb nonempty].
    rewrite (digit_of_digit c) by assumption. reflexivity.
  - rewrite Hok. unfold all_digits. cbn [forallb nonempty].
    rewrite (digit_of_digit c) by assumption. reflexivity.
  - apply andb_true_iff in Hok as [Hok H4]. apply andb_true_iff in Hok as [Hok _].
    rewrite Hok. unfold all_digits in *. cbn [forallb nonempty].
    rewrite (digit_of_digit c), H4 by assumption. reflexivity.
Qed.

Lemma num_done_ok (ns : numstate) (n : number) :
  numstate_ok ns = true -> num_done ns = Some n -> wf_number n = true.
Proof.
  intros Hok Hd. destruct ns; cbn [num_done] in Hd; try discriminate;
    injection Hd as <-; cbn [numstate_ok] in Hok; unfold wf_number;
    cbn [num_int num_frac num_exp].
  - reflexivity.
  - rewrite (nonzero_int_wf _ Hok). reflexivity.
  - apply andb_true_iff in Hok as [H1 H2].
    rewrite H1, all_digits_rev, H2. reflexivity.
  - apply andb_true_iff in Hok as [Hok H4]. apply andb_true_iff in Hok as [Hok H3].
    apply andb_true_iff in Hok as [H1 H2].
    rewrite H1, H2, all_digits_rev, H4. cbn [andb].
    destruct es; [discriminate | rewrite rev_involutive || idtac].
    destruct (rev (n :: es)) eqn:E; [|reflexivity].
    apply (f_equal (@List.length N)) in E. rewrite length_rev in E. discriminate E.
Qed.

Lemma distinct_snoc (ks : list jsstring) (k : jsstring) :
  distinct ks = true -> existsb (str_eqb k) ks = false ->
  distinct (ks ++ [k]) = true.
Proof.
  induction ks as [|x ks IH]; [reflexivity|].
  cbn [distinct existsb app]. intros H F.
  apply andb_true_iff in H as [H1 H2]. apply orb_false_iff in F as [F1 F2].
  rewrite (IH H2 F2), andb_true_r, existsb_app. cbn [existsb].
  apply negb_true_iff in H1. rewrite H1, str_eqb_sym, F1. reflexivity.
Qed.

Lemma set_prop_keys (k : jsstring) (v : json) (acc : list (jsstring * json)) :
  map fst (set_prop k v acc)
  = if existsb (str_eqb k) (map fst acc) then map fst acc else map fst acc ++ [k].
Proof.
  induction acc as [|[k' v'] acc IH]; [reflexivity|].
  cbn [set_prop map fst existsb]. destruct (str_eqb k k'); cbn [orb map fst].
  - reflexivity.
  - rewrite IH. destruct (existsb (str_eqb k) (map fst acc)); reflexivity.
Qed.

Lemma set_prop_values (k : jsstring) (v : json) (acc : list (jsstring * json)) :
  wf_json v = true ->
  forallb (fun '(_, x) => wf_json x) acc = true ->
  forallb (fun '(_, x) => wf_json x) (set_prop k v acc) = true.
Proof.
  intros Hv. induction acc as [|[k' v'] acc IH]; cbn [set_prop forallb].
  - intros _. rewrite Hv. reflexivity.
  - intro H. apply andb_true_iff in H as [H1 H2].
    destruct (str_eqb k k'); cbn [forallb].
    + rewrite Hv, H2. reflexivity.
    + rewrite H1, (IH H2). reflexivity.
Qed.

Lemma set_prop_wf (k : jsstring) (v : json) (acc : list (jsstring * json)) :
  wf_json v = true -> wf_json (JObj acc) = true ->
  wf_json (JObj (set_prop k v acc)) = true.
Proof.
  cbn [wf_json]. intros Hv H. apply andb_true_iff in H as [D F].
  rewrite (set_prop_values k v acc Hv F), andb_true_r, set_prop_keys.
  destruct (existsb (str_eqb k) (map fst acc)) eqn:E; [exact D|].
  apply distinct_snoc; assumption.
Qed.

Lemma deliver_ok (v : json) (K : list frame) :
  wf_json v = true -> forallb frame_ok K = true -> pstate_ok (deliver v K) = true.
Proof.
  intros Hv HK. destruct K as [|[acc|acc k] K]; cbn [deliver pstate_ok].
  - exact Hv.
  - cbn [forallb frame_ok] in HK. apply andb_true_iff in HK as [H1 H2].
    rewrite H2, andb_true_r. cbn [wf_json] in *.
    rewrite forallb_app, H1. cbn [forallb]. rewrite Hv. reflexivity.
  - cbn [forallb frame_ok] in HK. apply andb_true_iff in HK as [H1 H2].
    rewrite H2, andb_true_r. now apply set_prop_wf.
Qed.

Lemma pstep_ok (p p' : pstate) (t : token) :
  pstate_ok p = true -> token_ok t = true -> pstep p t = Some p' ->
  pstate_ok p' = true.
Proof.
  intros Hp Ht Hs.
  destruct p as [first K | acc K | first acc K | acc k K | acc K | v];
    destruct t; cbn [pstep pvalue] in Hs; cbn [pstate_ok token_ok] in *;
    repeat match type of Hs with
           | context [match ?x with _ => _ end] => destruct x
           end;
    try discriminate; injection Hs as <-;
    cbn [forallb frame_ok] in Hp;
    repeat match goal with
           | H : (_ && _) = true |- _ => apply andb_true_iff in H as [? ?]
           end;
    try (apply deliver_ok; solve [assumption | reflexivity]);
    cbn [pstate_ok forallb frame_ok];
    repeat match goal with
           | H : _ = true |- _ => rewrite H
           end;
    reflexivity.
Qed.

Lemma emit_ok (t : token) (p : pstate) (st' : state) :
  pstate_ok p = true -> token_ok t = true -> emit t p = Some st' ->
  state_ok st' = true.
Proof.
  unfold emit. intros Hp Ht He.
  destruct (pstep p t) as [p'|] eqn:E; [|discriminate]. injection He as <-.
  cbn [state_ok]. rewrite (pstep_ok p p' t Hp Ht E). reflexivity.
Qed.

Lemma idle_step_ok (p : pstate) (c : N) (st' : state) :
  pstate_ok p = true -> idle_step p c = Some st' -> state_ok st' = true.
Proof.
  unfold idle_step. intros Hp Hs.
  repeat match type of Hs with
         | (if ?b then _ else _) = _ => destruct b eqn:?
         end;
    try discriminate;
    try (eapply emit_ok; [exact Hp | | exact Hs]; reflexivity);
    injection Hs as <-; cbn [state_ok numstate_ok token_ok]; rewrite Hp;
    try reflexivity.
  (* a first digit from 1 to 9 *)
  cbn [rev app]. unfold nonzero_int, all_digits. cbn [forallb].
  rewrite (digit_of_digit c) by assumption.
  assert (E : N.eqb (digit_of c) 0 = false).
  { apply N.eqb_neq. unfold digit_of, is_digit in *.
    match goal with H : N.eqb c 48 = false |- _ => apply N.eqb_neq in H end.
    match goal with H : (N.leb 48 c && _) = true |- _ =>
      apply andb_true_iff in H as [H1 H2]; apply N.leb_le in H1 end.
    lia. }
  rewrite E. reflexivity.
Qed.

Lemma step_ok (st st' : state) (c : N) :
  state_ok st = true -> step st c = Some st' -> state_ok st' = true.
Proof.
  destruct st as [l p]. cbn [state_ok]. intros Hok Hs.
  apply andb_true_iff in Hok as [Hp Hl].
  destruct l as [ | rest t | acc | acc | acc todo v | ns]; cbn [step] in Hs.
  - exact (idle_step_ok p c st' Hp Hs).
  - destruct rest as [|x [|y rest']]; [discriminate | |];
      destruct (N.eqb c x); try discriminate.
    + exact (emit_ok t p st' Hp Hl Hs).
    + injection Hs as <-. cbn [state_ok]. rewrite Hp, Hl. reflexivity.
  - repeat match type of Hs with
           | (if ?b then _ else _) = _ => destruct b eqn:?
           end; try discriminate.
    + exact (emit_ok (TStr (rev acc)) p st' Hp eq_refl Hs).
    + injection Hs as <-. cbn [state_ok]. rewrite Hp. reflexivity.
    + injection Hs as <-. cbn [state_ok]. rewrite Hp. reflexivity.
  - destruct (N.eqb c 117).
    + injection Hs as <-. cbn [state_ok]. rewrite Hp. reflexivity.
    + destruct (escape_value c); [|discriminate].
      injection Hs as <-. cbn [state_ok]. rewrite Hp. reflexivity.
  - destruct (hex_value c); [|discriminate].
    destruct todo as [|[|todo]]; [discriminate | |];
      injection Hs as <-; cbn [state_ok]; rewrite Hp; reflexivity.
  - destruct (num_step ns c) as [ns'|] eqn:E.
    + injection Hs as <-. cbn [state_ok].
      rewrite Hp, (num_step_ok ns ns' c Hl E). reflexivity.
    + destruct (num_done ns) as [n|] eqn:D; [|discriminate].
      destruct (pstep p (TNum n)) as [p'|] eqn:P; [|discriminate].
      apply (idle_step_ok p' c st'); [|exact Hs].
      apply (pstep_ok p p' (TNum n) Hp); [|exact P].
      exact (num_done_ok ns n Hl D).
Qed.

Lemma finish_ok (st : state) (v : json) :
  state_ok st = true -> finish st = Some v -> wf_json v = true.
Proof.
  destruct st as [l p]. cbn [state_ok]. intros Hok Hf.
  apply andb_true_iff in Hok as [Hp Hl].
  destruct l; cbn [finish] in Hf; try discriminate.
  - destruct p; try discriminate. injection Hf as <-. exact Hp.
  - destruct (num_done ns) as [n|] eqn:D; [|discriminate].
    destruct (pstep p (TNum n)) as [p'|] eqn:P; [|discriminate].
    destruct p'; try discriminate. injection Hf as <-.
    exact (pstep_ok p (PDone v0) (TNum n) Hp (num_done_ok ns n Hl D) P).
Qed.

Lemma run_ok (text : jsstring) :
  forall (st : state) (v : json),
    state_ok st = true -> run st text = Some v -> wf_json v = true.
Proof.
  induction text as [|c r IH]; intros st v Hok Hr; cbn [run] in Hr.
  - exact (finish_ok st v Hok Hr).
  - destruct (step st c) as [st'|] eqn:E; [|discriminate].
    exact (IH st' v (step_ok st st' c Hok E) Hr).
Qed.

(** Every value [JSON.parse] returns is well formed. *)
Lemma JSON_parse_wf (text : jsstring) (v : json) :
  JSON_parse text = Some v -> wf_json v = true.
Proof. apply run_ok. reflexivity. Qed.

(** The well-formed values are the values of the JSON texts. *)
Lemma wf_json_parsed (v : json) :
  wf_json v = true <-> exists text, JSON_parse text = Some v.
Proof.
  split.
  - intro W. exists (serialize v). exact (JSON_parse_serialize v W).
  - intros [text H]. exact (JSON_parse_wf text v H).
Qed.

(** ** The regular expression: from the first opening brace to the last
    closing brace *)

Lemma greedy_rbrace_last (r : jsstring) :
  greedy_rbrace r
  = option_map (fun j => firstn (S j) r) (lastIndexOf Ch.rbrace r).
Proof.
  induction r as [|c r IH]; [reflexivity|].
  cbn [greedy_rbrace lastIndexOf]. rewrite IH.
  destruct (lastIndexOf Ch.rbrace r) as [j|]; cbn [option_map].
  - reflexivity.
  - destruct (N.eqb c Ch.rbrace); reflexivity.
Qed.

Lemma match_braces_slice (text : jsstring) :
  match_braces text
  = match indexOf Ch.lbrace text, lastIndexOf Ch.rbrace text with
    | Some i, Some j =>
        if Nat.ltb i j then Some (slice i (S j) text) else None
    | _, _ => None
    end.
Proof.
  induction text as [|c r IH]; [reflexivity|].
  cbn [match_braces indexOf lastIndexOf].
  destruct (N.eqb_spec c Ch.lbrace) as [->|Hc].
  - rewrite greedy_rbrace_last.
    destruct (lastIndexOf Ch.rbrace r) as [j|]; cbn [option_map].
    + reflexivity.
    + rewrite IH. destruct (indexOf Ch.lbrace r); reflexivity.
  - rewrite IH.
    destruct (indexOf Ch.lbrace r) as [i|]; cbn [option_map]; [|reflexivity].
    destruct (lastIndexOf Ch.rbrace r) as [j|].
    + change (Nat.ltb (S i) (S j)) with (Nat.ltb i j). reflexivity.
    + destruct (N.eqb c Ch.rbrace); reflexivity.
Qed.

Lemma slice_at_index (c : N) (s : jsstring) (i : nat) :
  indexOf c s = Some i -> slice i (S i) s = [c].
Proof.
  revert i; induction s as [|x r IH]; intros i H; [discriminate|].
  cbn [indexOf] in H. destruct (N.eqb_spec x c) as [->|Hx].
  - injection H as <-. reflexivity.
  - destruct (indexOf c r) as [i'|]; [|discriminate].
    injection H as <-. specialize (IH i' eq_refl).
    unfold slice in *. rewrite Nat.sub_succ_l in * by apply le_n.
    rewrite Nat.sub_diag in *. exact IH.
Qed.

Lemma slice_empty (i j : nat) (s : jsstring) : (j <= i)%nat -> slice i j s = [].
Proof.
  intro H. unfold slice. replace (j - i)%nat with 0%nat by lia. reflexivity.
Qed.

(** The prose around an object does not hide it. *)
Lemma match_braces_skip (pre s : jsstring) :
  forallb (fun c => negb (N.eqb c Ch.lbrace)) pre = true ->
  match_braces (pre ++ s) = match_braces s.
Proof.
  induction pre as [|c pre IH]; [reflexivity|].
  cbn [forallb app match_braces]. intro H.
  apply andb_true_iff in H as [Hc H]. apply negb_true_iff in Hc.
  rewrite Hc. exact (IH H).
Qed.

Lemma greedy_rbrace_none (suf : jsstring) :
  forallb (fun c => negb (N.eqb c Ch.rbrace)) suf = true ->
  greedy_rbrace suf = None.
Proof.
  induction suf as [|c suf IH]; [reflexivity|].
  cbn [forallb greedy_rbrace]. intro H.
  apply andb_true_iff in H as [Hc H]. apply negb_true_iff in Hc.
  rewrite (IH H), Hc. reflexivity.
Qed.

Lemma greedy_rbrace_body (body suf : jsstring) :
  forallb (fun c => negb (N.eqb c Ch.rbrace)) suf = true ->
  greedy_rbrace (body ++ Ch.rbrace :: suf) = Some (body ++ [Ch.rbrace]).
Proof.
  intro H. induction body as [|c body IH].
  - cbn [app greedy_rbrace]. rewrite (greedy_rbrace_none suf H). reflexivity.
  - cbn [app greedy_rbrace]. rewrite IH. reflexivity.
Qed.

Lemma match_braces_object (pre body suf : jsstring) :
  forallb (fun c => negb (N.eqb c Ch.lbrace)) pre = true ->
  forallb (fun c => negb (N.eqb c Ch.rbrace)) suf = true ->
  match_braces (pre ++ (Ch.lbrace :: body ++ [Ch.rbrace]) ++ suf)
  = Some (Ch.lbrace :: body ++ [Ch.rbrace]).
Proof.
  intros Hpre Hsuf. rewrite (match_braces_skip pre _ Hpre).
  cbn [app match_braces]. change (N.eqb Ch.lbrace Ch.lbrace) with true. cbn iota.
  rewrite <- app_assoc. cbn [app]. rewrite (greedy_rbrace_body body suf Hsuf).
  reflexivity.
Qed.

(** ** The extractor *)

(** The code and the two-phase algorithm of the specification agree on every
    text. *)
Lemma extractJsonFromText_spec (text : jsstring) :
  outcome_of (extractJsonFromText text) = extract_spec text.
Proof.
  unfold extractJsonFromText, extract_spec.
  destruct (JSON_parse text) as [v|]; [reflexivity|].
  rewrite match_braces_slice.
  destruct (indexOf Ch.lbrace text) as [i|] eqn:Hi; [|reflexivity].
  destruct (lastIndexOf Ch.rbrace text) as [j|]; [|reflexivity].
  destruct (Nat.ltb_spec i j) as [Hlt|Hge].
  - destruct (JSON_parse (slice i (S j) text)); reflexivity.
  - assert (E : JSON_parse (slice i (S j) text) = None).
    { destruct (Nat.eq_dec i j) as [<-|Hne].
      - rewrite (slice_at_index _ _ _ Hi). reflexivity.
      - rewrite slice_empty by lia. reflexivity. }
    rewrite E. reflexivity.
Qed.


Lemma extract_embedded_object (pre suf : jsstring) (m : list (jsstring * json)) :
  wf_json (JObj m) = true ->
  JSON_parse (pre ++ serialize (JObj m) ++ suf) = None ->
  forallb (fun c => negb (N.eqb c Ch.lbrace)) pre = true ->
  forallb (fun c => negb (N.eqb c Ch.rbrace)) suf = true ->
  extractJsonFromText (pre ++ serialize (JObj m) ++ suf) = inr (JObj m).
Proof.
  intros W Hwhole Hpre Hsuf. unfold extractJsonFromText. rewrite Hwhole.
  pose proof (JSON_parse_serialize (JObj m) W) as P.
  cbn [serialize] in *.
  rewrite (match_braces_object pre _ suf Hpre Hsuf), P. reflexivity.
Qed.

Lemma three_keys_object (object : json) :
  three_keys object = true -> exists m, object = JObj m.
Proof.
  destruct object; try discriminate. intros _. eexists. reflexivity.
Qed.

(** C4. [extractJsonFromText] is the two-phase algorithm of the
    specification, the first success winning: the whole text parsed as JSON,
    else the text from the first opening brace to the last closing brace,
    else not found. A well-formed object with the three keys is recovered
    from between "Here you go: " and " Hope that helps!", and nothing is
    found in "no braces here". *)
Theorem extract_two_phase :
  (forall text, outcome_of (extractJsonFromText text) = extract_spec text)
  /\ (forall O, wf_json O = true -> three_keys O = true ->
        outcome_of (extractJsonFromText
                      (lit "Here you go: " ++ serialize O ++ lit " Hope that helps!"))
        = Parsed O)
  /\ outcome_of (extractJsonFromText (lit "no braces here")) = NotFound.
Proof.
  split; [exact extractJsonFromText_spec | split].
  - intros O W K. destruct (three_keys_object O K) as [m ->].
    rewrite extract_embedded_object; try reflexivity. exact W.
  - reflexivity.
Qed.



Lemma extract_two_phase_witness :
  wf_json off_by_one = true /\ three_keys off_by_one = true
  /\ outcome_of (extractJsonFromText
                   (lit "Here you go: " ++ serialize off_by_one ++ lit " Hope that helps!"))
     = Parsed off_by_one.
Proof.
  split; [reflexivity | split; [reflexivity|]].
  apply (proj1 (proj2 extract_two_phase) off_by_one); reflexivity.
Defined.


(** ** The validator *)

Lemma nonempty_string_truthy (x : any) : nonempty_string x = true -> truthy x = true.
Proof. destruct x as [[ | | | [|c s] | | ]|]; try discriminate; reflexivity. Qed.

Lemma validate_truthy_iff (object : json) :
  (exists r, validateDebugResult object = inr r) <-> three_truthy object = true.
Proof.
  unfold validateDebugResult, three_truthy.
  destruct object as [ | b | n | s | l | m];
    try (cbn; split; [intros [r H]; discriminate | discriminate]).
  destruct (truthy (prop (JObj m) "problem")),
           (truthy (prop (JObj m) "solution")),
           (truthy (prop (JObj m) "codeSnippet")); cbn [negb orb andb];
    split; try discriminate; try (intros [r H]; discriminate);
    try reflexivity.
  intros _. eexists. reflexivity.
Qed.

(** What the validator does. [validateDebugResult] returns a result exactly
    when the values at the three keys are truthy, and the result holds the
    three values as they are, neither coerced nor filled in. Every object
    with three non-empty strings is accepted. Any other value than [null]
    with a missing key or a falsy value (the empty string among them) at one
    of the keys is refused with "Invalid response format". *)
Lemma validate_truthy (object : json) :
  ((exists r, validateDebugResult object = inr r) <-> three_truthy object = true)
  /\ (three_truthy object = true ->
      validateDebugResult object
      = inr (DebugResult.mk (prop object "problem") (prop object "solution")
                            (prop object "codeSnippet")))
  /\ (three_nonempty_strings object = true -> three_truthy object = true)
  /\ (three_truthy object = false -> object <> JNull ->
      validateDebugResult object = inl (ErrorObj (lit "Invalid response format")))
  /\ (forall name,
        name = "problem"%string \/ name = "solution"%string
        \/ name = "codeSnippet"%string ->
        prop object name = undefined \/ prop object name = Some (JStr []) ->
        three_truthy object = false).
Proof.
  split; [apply validate_truthy_iff|].
  split; [|split; [|split]].
  - unfold validateDebugResult, three_truthy. intro H.
    apply andb_true_iff in H as [H H3]. apply andb_true_iff in H as [H1 H2].
    destruct object; try discriminate. rewrite H1, H2, H3. reflexivity.
  - unfold three_nonempty_strings, three_truthy. intro H.
    apply andb_true_iff in H as [H H3]. apply andb_true_iff in H as [H1 H2].
    rewrite !nonempty_string_truthy by assumption. reflexivity.
  - unfold validateDebugResult, three_truthy. intros H Hn.
    destruct object; try congruence; try reflexivity.
    destruct (truthy (prop (JObj m) "problem")),
             (truthy (prop (JObj m) "solution")),
             (truthy (prop (JObj m) "codeSnippet")); try discriminate; reflexivity.
  - unfold three_truthy. intros name Hname Hval.
    assert (F : truthy (prop object name) = false)
      by (destruct Hval as [-> | ->]; reflexivity).
    destruct Hname as [-> | [-> | ->]]; rewrite F;
      rewrite ?andb_false_r; reflexivity.
Qed.

(** C3. The code departs from the specification. For the answer whose three
    values are a number, an object and an array, not one of them a string,
    [validateDebugResult] returns a result that holds them, and the dispatch
    stores it as the result to show; the specification asks for a refusal. *)
Theorem validate_accepts_non_strings :
  three_nonempty_strings not_strings = false
  /\ validateDebugResult not_strings = inr (as_result not_strings)
  /\ ~ validator_spec not_strings
  /\ final (reply_world (serialize not_strings)) (ask "gemini-1.5")
     = with_loading false
         (with_result (Some (as_result not_strings)) (started (ask "gemini-1.5"))).
Proof.
  split; [reflexivity | split; [reflexivity | split]].
  - unfold validator_spec. intros [H _].
    assert (E : three_nonempty_strings not_strings = true).
    { apply H. eexists. reflexivity. }
    discriminate E.
  - vm_compute. reflexivity.
Qed.

(** ** The dispatch *)

Lemma dispatch_missing_field (w : World) (st : AppState) :
  missing_field st = true ->
  dispatch w st = (inr tt, with_error (lit "Please fill in all fields") st, []).
Proof. intro H. unfold_dispatch. rewrite H. reflexivity. Qed.

(** C8. A dispatch calls at most one provider, once, and the provider is the
    one of the selected model; its trace goes through the stages lookup,
    call, extraction, validation in this order, each at most once, and stops
    where it fails. *)
Theorem one_call_single_pass (w : World) (st : AppState) :
  (List.length (filter is_call (trace w st)) <= 1)%nat
  /\ single_pass (trace w st)
  /\ (forall r, In (EvCall r) (trace w st) ->
        option_map AIModel.provider (find_model (model st)) = Some (provider_of r)).
Proof.
  unfold trace, single_pass. unfold_dispatch.
  destruct (missing_field st).
  - cbn. repeat split; [lia | eexists; reflexivity | tauto].
  - cbn -[lit]. destruct (find_model (model st)) as [[v l []]|]; cbn -[lit];
      split_cases;
      (repeat split;
       [ lia
       | eexists; reflexivity
       | intros r Hr; cbn in Hr;
         repeat (destruct Hr as [Hr|Hr]; [try discriminate; injection Hr as <-; reflexivity|]);
         contradiction ]).
Qed.

Lemma nonempty_trim_blank (s : jsstring) : negb (nonempty (trim s)) = blank s.
Proof.
  destruct (blank s) eqn:B.
  - apply trim_nil_iff in B. rewrite B. reflexivity.
  - destruct (trim s) eqn:T; [|reflexivity].
    apply trim_nil_iff in T. congruence.
Qed.

Lemma missing_field_blank (st : AppState) :
  missing_field st = blank (code st) || blank (problem st) || blank (apiKey st).
Proof. unfold missing_field. rewrite !nonempty_trim_blank. reflexivity. Qed.

(** No exception leaves [handleDebug]. *)
Lemma never_escapes (w : World) (st : AppState) : escaped w st = None.
Proof.
  unfold escaped. unfold_dispatch.
  destruct (missing_field st); [reflexivity|].
  cbn -[lit]. destruct (find_model (model st)) as [[v l []]|]; cbn -[lit];
    split_cases; reflexivity.
Qed.

(** C10. With an empty or blank code, problem or API key, [handleDebug] sets
    the error "Please fill in all fields" and returns: no lookup, no call,
    and the result and the loading flag stay as they were. *)
Theorem blank_field_rejected (w : World) (st : AppState) :
  blank (code st) = true \/ blank (problem st) = true \/ blank (apiKey st) = true ->
  final w st = with_error (lit "Please fill in all fields") st
  /\ result (final w st) = result st
  /\ trace w st = []
  /\ escaped w st = None.
Proof.
  intro H.
  assert (M : missing_field st = true).
  { rewrite missing_field_blank.
    destruct H as [-> | [-> | ->]]; rewrite ?orb_true_r; reflexivity. }
  unfold final, trace, escaped. rewrite (dispatch_missing_field w st M).
  repeat split.
Qed.

Lemma find_model_unknown (id : jsstring) :
  ~ In id (map AIModel.value AI_MODELS) -> find_model id = None.
Proof.
  intro H. unfold find_model.
  destruct (find _ AI_MODELS) as [m|] eqn:F; [|reflexivity].
  apply find_some in F as [Hin Heq]. apply str_eqb_eq in Heq.
  exfalso. apply H. rewrite <- Heq. apply in_map. exact Hin.
Qed.

(** C6, as the code has it. For a model identifier that is not in the
    catalog no provider is called, and a dispatch whose code, problem and API
    key are not blank ends, after the lookup alone, with the error "Invalid
    model selected" and no result. *)
Theorem unknown_model (w : World) (st : AppState) :
  ~ In (model st) (map AIModel.value AI_MODELS) ->
  filter is_call (trace w st) = []
  /\ (missing_field st = false ->
      final w st
      = with_loading false (with_error (lit "Invalid model selected") (started st))
      /\ trace w st = [EvLookup (model st)]
      /\ escaped w st = None).
Proof.
  intro H. apply find_model_unknown in H.
  unfold final, trace, escaped. unfold_dispatch.
  destruct (missing_field st); cbn -[lit].
  - split; [reflexivity | discriminate].
  - rewrite H. cbn -[lit]. repeat split.
Qed.


(** The same when the constructor of the client throws, before any call;
    the message falls back on the one of [handleDebug]. *)
Lemma client_construction_failed (w : World) (st : AppState) (m : AIModel.t) (e : thrown) :
  missing_field st = false ->
  find_model (model st) = Some m ->
  new_client w (AIModel.provider m) (apiKey st) (model st) = Some e ->
  dispatch w st
  = (inr tt,
     with_loading false
       (with_error (message_or (lit "An error occurred") e) (started st)),
     [EvLookup (model st)]).
Proof.
  intros Hf Hm Hc. unfold_dispatch. rewrite Hf. cbn -[lit]. rewrite Hm.
  destruct m as [v l p]. cbn -[lit] in *.
  destruct p; cbn -[lit] in *; rewrite Hc; reflexivity.
Qed.

(** C1. The code departs from the specification. With the model of
    Replicate selected and an output that is an array of fragments, and with
    a model of OpenAI selected and a first completion without content, the
    dispatch ends without an exception, with no result and with the empty
    error: the page shows neither a result nor an error. *)
Theorem neither_result_nor_error :
  let answer := serialize off_by_one in
  (final (fragments_world answer) (ask "meta/llama-2-70b-chat")
   = with_loading false (started (ask "meta/llama-2-70b-chat"))
   /\ shows_result (final (fragments_world answer) (ask "meta/llama-2-70b-chat")) = false
   /\ shows_error (final (fragments_world answer) (ask "meta/llama-2-70b-chat")) = false
   /\ escaped (fragments_world answer) (ask "meta/llama-2-70b-chat") = None)
  /\ (final (fragments_world answer) (ask "gpt-4")
      = with_loading false (started (ask "gpt-4"))
      /\ shows_result (final (fragments_world answer) (ask "gpt-4")) = false
      /\ shows_error (final (fragments_world answer) (ask "gpt-4")) = false
      /\ escaped (fragments_world answer) (ask "gpt-4") = None).
Proof. vm_compute. repeat split. Qed.

(** C2. The code departs from the specification. When the run of Replicate
    returns anything but a string, [handleLlamaDebug] does nothing more: the
    dispatch ends after the call with no result and with the empty error, not
    with a failure. *)
Theorem llama_output_not_a_string (w : World) (st : AppState) (output : json) :
  missing_field st = false ->
  model st = lit "meta/llama-2-70b-chat" ->
  new_client w replicate (apiKey st) (model st) = None ->
  replicate_run w (apiKey st) llama_version (prompt_text (code st) (problem st))
  = inr output ->
  (forall s, output <> JStr s) ->
  final w st = with_loading false (started st)
  /\ shows_result (final w st) = false
  /\ shows_error (final w st) = false
  /\ trace w st = [EvLookup (model st); EvCall (adapter_request replicate st)].
Proof.
  intros Hf Hm Hc Hr Hs.
  cut (dispatch w st
       = (inr tt, with_loading false (started st),
          [EvLookup (model st); EvCall (adapter_request replicate st)])).
  { intro E. unfold final, trace. rewrite E. repeat split. }
  unfold_dispatch. rewrite Hf. cbn -[lit].
  replace (find_model (model st))
    with (Some (AIModel.mk (lit "meta/llama-2-70b-chat") (lit "Llama 3") replicate))
    by (rewrite Hm; reflexivity).
  cbn -[lit]. rewrite Hc. cbn -[lit]. rewrite Hr. cbn -[lit].
  destruct output; try reflexivity. exfalso. exact (Hs s eq_refl).
Qed.

Lemma llama_output_not_a_string_witness :
  let w := fragments_world (serialize off_by_one) in
  let st := ask "meta/llama-2-70b-chat" in
  missing_field st = false
  /\ final w st = with_loading false (started st)
  /\ shows_result (final w st) = false
  /\ shows_error (final w st) = false.
Proof.
  cbv zeta. split; [reflexivity|].
  destruct (llama_output_not_a_string
              (fragments_world (serialize off_by_one))
              (ask "meta/llama-2-70b-chat")
              (fragments (serialize off_by_one))) as (H1 & H2 & H3 & _);
    try reflexivity.
  - intros s H. discriminate H.
  - repeat split; assumption.
Defined.

(** The like for OpenAI: a first completion without content, or with the
    empty string as content, ends the dispatch in the same silent way. *)
Lemma openai_no_content (w : World) (st : AppState) (m : AIModel.t)
    (choices : list (option jsstring)) :
  missing_field st = false ->
  find_model (model st) = Some m ->
  AIModel.provider m = openai ->
  new_client w openai (apiKey st) (model st) = None ->
  chat_completions_create w (apiKey st) (model st) openai_system
    (openai_user (code st) (problem st)) = inr choices ->
  hd None choices = None \/ hd None choices = Some [] ->
  dispatch w st
  = (inr tt, with_loading false (started st),
     [EvLookup (model st); EvCall (adapter_request openai st)]).
Proof.
  intros Hf Hm Hp Hc Hr Hd. unfold_dispatch. rewrite Hf. cbn -[lit]. rewrite Hm.
  destruct m as [v l p]. cbn -[lit] in *. subst p.
  cbn -[lit]. rewrite Hc. cbn -[lit]. rewrite Hr. cbn -[lit].
  destruct choices as [|[[|c content]|] rest]; cbn in Hd;
    destruct Hd as [Hd|Hd]; try discriminate Hd; reflexivity.
Qed.

(** ** The prompts *)

Lemma format_block_parses :
  JSON_parse format_block
  = Some (JObj [(lit "problem", JStr (lit "detailed analysis of the issue"));
                (lit "solution", JStr (lit "step-by-step solution"));
                (lit "codeSnippet", JStr (lit "relevant problematic code section"))]).
Proof. vm_compute. reflexivity. Qed.

Lemma prompt_text_embeds (code problem : jsstring) :
  embeds code (prompt_text code problem)
  /\ embeds problem (prompt_text code problem)
  /\ embeds only_json (prompt_text code problem).
Proof.
  unfold embeds, prompt_text. repeat split.
  - exists (lit "You are an expert programmer. Analyze this code and problem, then respond ONLY with a JSON object in this exact format:"
            ++ nl ++ format_block ++ nl ++ nl ++ lit "Code:" ++ nl),
           (nl ++ nl ++ lit "Problem Description:" ++ nl ++ problem).
    rewrite <- !app_assoc. reflexivity.
  - exists (lit "You are an expert programmer. Analyze this code and problem, then respond ONLY with a JSON object in this exact format:"
            ++ nl ++ format_block ++ nl ++ nl ++ lit "Code:" ++ nl
            ++ code ++ nl ++ nl ++ lit "Problem Description:" ++ nl),
           [].
    rewrite app_nil_r, <- !app_assoc. reflexivity.
  - exists (lit "You are an expert programmer. Analyze this code and problem, then r"),
           (nl ++ nl ++ lit "Code:" ++ nl ++ code ++ nl ++ nl
            ++ lit "Problem Description:" ++ nl ++ problem).
    reflexivity.
Qed.

Lemma openai_user_embeds (code problem : jsstring) :
  embeds code (openai_user code problem)
  /\ embeds problem (openai_user code problem)
  /\ embeds only_json (openai_user code problem).
Proof.
  unfold embeds, openai_user. repeat split.
  - exists (lit "Analyze this code and problem:" ++ nl ++ nl ++ lit "Code:" ++ nl),
           (nl ++ nl ++ lit "Problem Description:" ++ nl ++ problem ++ nl ++ nl
            ++ lit "Respond ONLY with a JSON object in this exact format:" ++ nl
            ++ format_block).
    rewrite <- !app_assoc. reflexivity.
  - exists (lit "Analyze this code and problem:" ++ nl ++ nl ++ lit "Code:" ++ nl
            ++ code ++ nl ++ nl ++ lit "Problem Description:" ++ nl),
           (nl ++ nl
            ++ lit "Respond ONLY with a JSON object in this exact format:" ++ nl
            ++ format_block).
    rewrite <- !app_assoc. reflexivity.
  - exists (lit "Analyze this code and problem:" ++ nl ++ nl ++ lit "Code:" ++ nl
            ++ code ++ nl ++ nl ++ lit "Problem Description:" ++ nl
            ++ problem ++ nl ++ nl ++ lit "R"),
           [].
    rewrite app_nil_r, <- !app_assoc. reflexivity.
Qed.

(** Every call in a trace carries the request of the handler of its
    provider. *)
Lemma trace_calls (w : World) (st : AppState) (r : request) :
  In (EvCall r) (trace w st) -> r = adapter_request (provider_of r) st.
Proof.
  unfold trace. unfold_dispatch.
  destruct (missing_field st); [intros []|].
  cbn -[lit]. destruct (find_model (model st)) as [[v l []]|]; cbn -[lit];
    split_cases; intro Hr; cbn in Hr;
    repeat (destruct Hr as [Hr|Hr]; [try discriminate; injection Hr as <-; reflexivity|]);
    contradiction.
Qed.

(** Every handler sends its request: after the lookup, the first thing a
    dispatch does for a model of the catalog, once the client is made, is the
    call with the request of the handler of that model. *)
Lemma sends_request (w : World) (st : AppState) (m : AIModel.t) :
  missing_field st = false ->
  find_model (model st) = Some m ->
  new_client w (AIModel.provider m) (apiKey st) (model st) = None ->
  exists rest,
    trace w st
    = EvLookup (model st) :: EvCall (adapter_request (AIModel.provider m) st) :: rest.
Proof.
  intros Hf Hm Hc. unfold trace. unfold_dispatch. rewrite Hf. cbn -[lit]. rewrite Hm.
  destruct m as [v l p]. cbn -[lit] in *.
  destruct p; cbn -[lit] in *; rewrite Hc; cbn -[lit]; split_cases;
    eexists; reflexivity.
Qed.

Lemma every_provider_listed (p : Provider) :
  exists m, In m AI_MODELS /\ AIModel.provider m = p.
Proof.
  destruct p.
  - exists (AIModel.mk (lit "gemini-1.5") (lit "Gemini 1.5") google).
    split; [left; reflexivity | reflexivity].
  - exists (AIModel.mk (lit "gpt-4") (lit "GPT-4") openai).
    split; [do 3 right; left; reflexivity | reflexivity].
  - exists (AIModel.mk (lit "claude-3-opus") (lit "Claude 3") anthropic).
    split; [do 4 right; left; reflexivity | reflexivity].
  - exists (AIModel.mk (lit "meta/llama-2-70b-chat") (lit "Llama 3") replicate).
    split; [do 5 right; left; reflexivity | reflexivity].
Qed.

(** C9. Each of the four handlers sends a prompt that holds the code and the
    problem description as they are, in one piece, and the instruction to
    respond only with a JSON object in the format shown. For every model of
    the catalog, and every provider has one, a dispatch with its fields
    filled in and its client made calls the provider with such a prompt,
    right after the lookup, and no request of a dispatch is of another
    kind. The format shown is a JSON object with the three keys [problem],
    [solution] and [codeSnippet] and no other. *)
Theorem prompt_contract (w : World) (st : AppState) (m : AIModel.t) :
  missing_field st = false ->
  find_model (model st) = Some m ->
  new_client w (AIModel.provider m) (apiKey st) (model st) = None ->
  (exists r rest,
     trace w st = EvLookup (model st) :: EvCall r :: rest
     /\ provider_of r = AIModel.provider m
     /\ embeds (code st) (outbound_prompt r)
     /\ embeds (problem st) (outbound_prompt r)
     /\ embeds only_json (outbound_prompt r))
  /\ (forall r, In (EvCall r) (trace w st) ->
        embeds (code st) (outbound_prompt r)
        /\ embeds (problem st) (outbound_prompt r)
        /\ embeds only_json (outbound_prompt r))
  /\ (forall p, exists m', In m' AI_MODELS /\ AIModel.provider m' = p)
  /\ (exists d1 d2 d3,
        JSON_parse format_block
        = Some (JObj [(lit "problem", JStr d1); (lit "solution", JStr d2);
                      (lit "codeSnippet", JStr d3)])).
Proof.
  intros Hf Hm Hc.
  assert (P : forall p, embeds (code st) (outbound_prompt (adapter_request p st))
                        /\ embeds (problem st) (outbound_prompt (adapter_request p st))
                        /\ embeds only_json (outbound_prompt (adapter_request p st))).
  { intros []; cbn [adapter_request outbound_prompt];
      first [apply prompt_text_embeds | apply openai_user_embeds]. }
  split; [|split; [|split]].
  - destruct (sends_request w st m Hf Hm Hc) as [rest E].
    exists (adapter_request (AIModel.provider m) st), rest.
    split; [exact E | split; [|apply P]].
    destruct (AIModel.provider m); reflexivity.
  - intros r Hr. rewrite (trace_calls w st r Hr). apply P.
  - exact every_provider_listed.
  - do 3 eexists. exact format_block_parses.
Qed.

Lemma prompt_contract_witness :
  let w := reply_world (serialize off_by_one) in
  let sent (id : string) (p : Provider) :=
    exists r rest,
      trace w (ask id) = EvLookup (lit id) :: EvCall r :: rest
      /\ provider_of r = p
      /\ embeds (lit "for(i=0;i<=n;i++)") (outbound_prompt r)
      /\ embeds (lit "the loop runs once too often") (outbound_prompt r)
      /\ embeds only_json (outbound_prompt r) in
  sent "gemini-1.5"%string google /\ sent "gpt-3.5-turbo"%string openai
  /\ sent "claude-3-opus"%string anthropic
  /\ sent "meta/llama-2-70b-chat"%string replicate.
Proof.
  cbv zeta. repeat split.
  - exact (proj1 (prompt_contract (reply_world (serialize off_by_one))
                    (ask "gemini-1.5")
                    (AIModel.mk (lit "gemini-1.5") (lit "Gemini 1.5") google)
                    eq_refl eq_refl eq_refl)).
  - exact (proj1 (prompt_contract (reply_world (serialize off_by_one))
                    (ask "gpt-3.5-turbo")
                    (AIModel.mk (lit "gpt-3.5-turbo") (lit "GPT-3.5 Turbo") openai)
                    eq_refl eq_refl eq_refl)).
  - exact (proj1 (prompt_contract (reply_world (serialize off_by_one))
                    (ask "claude-3-opus")
                    (AIModel.mk (lit "claude-3-opus") (lit "Claude 3") anthropic)
                    eq_refl eq_refl eq_refl)).
  - exact (proj1 (prompt_contract (reply_world (serialize off_by_one))
                    (ask "meta/llama-2-70b-chat")
                    (AIModel.mk (lit "meta/llama-2-70b-chat") (lit "Llama 3") replicate)
                    eq_refl eq_refl eq_refl)).
Defined.

(** ** The theorems at work *)

Lemma one_call_single_pass_witness :
  let w := reply_world (serialize off_by_one) in
  let st := ask "claude-3-opus" in
  In (EvCall (adapter_request anthropic st)) (trace w st)
  /\ option_map AIModel.provider (find_model (model st)) = Some anthropic.
Proof.
  cbv zeta.
  assert (H : In (EvCall (adapter_request anthropic (ask "claude-3-opus")))
                 (trace (reply_world (serialize off_by_one)) (ask "claude-3-opus")))
    by (vm_compute; right; left; reflexivity).
  split; [exact H|].
  exact (proj2 (proj2 (one_call_single_pass _ _)) _ H).
Defined.

Lemma blank_field_rejected_witness :
  let w := reply_world (serialize off_by_one) in
  let st := mkState (lit "for(i=0;i<=n;i++)") [Ch.space; Ch.lf; Ch.tab] (lit "secret")
                    (lit "gpt-4") false (Some (DebugResult.mk None None None))
                    (lit "Invalid model selected") in
  blank (problem st) = true
  /\ final w st = with_error (lit "Please fill in all fields") st
  /\ result (final w st) = result st
  /\ trace w st = []
  /\ escaped w st = None.
Proof.
  cbv zeta. split; [reflexivity|].
  apply blank_field_rejected. right; left. reflexivity.
Defined.

(** C6 as stated fails where a field is blank: the check of the fields comes
    first, and the error is the one of that check. *)
Lemma unknown_model_blank_code :
  let w := reply_world (serialize off_by_one) in
  let st := mkState [] (lit "the loop runs once too often") (lit "secret")
                    (lit "gpt-5") false None [] in
  ~ In (model st) (map AIModel.value AI_MODELS)
  /\ final w st = with_error (lit "Please fill in all fields") st
  /\ error (final w st) <> lit "Invalid model selected".
Proof.
  cbv zeta. split; [|split].
  - cbn. intros [H|[H|[H|[H|[H|[H|[]]]]]]]; discriminate H.
  - reflexivity.
  - intro H. discriminate H.
Qed.

Lemma unknown_model_witness :
  let w := reply_world (serialize off_by_one) in
  let st := ask "gpt-5" in
  ~ In (model st) (map AIModel.value AI_MODELS)
  /\ missing_field st = false
  /\ filter is_call (trace w st) = []
  /\ final w st
     = with_loading false (with_error (lit "Invalid model selected") (started st))
  /\ trace w st = [EvLookup (model st)].
Proof.
  cbv zeta.
  assert (H : ~ In (model (ask "gpt-5")) (map AIModel.value AI_MODELS)).
  { cbn. intros [H|[H|[H|[H|[H|[H|[]]]]]]]; discriminate H. }
  destruct (unknown_model (reply_world (serialize off_by_one)) (ask "gpt-5") H)
    as (H1 & H2).
  destruct (H2 eq_refl) as (H3 & H4 & _).
  repeat split; assumption.
Defined.



Example scenario_1 :
  forall id, In id ["gemini-1.5"; "gpt-4"; "claude-3-opus"; "meta/llama-2-70b-chat"]%string ->
  final (reply_world (serialize off_by_one)) (ask id)
  = with_loading false (with_result (Some (as_result off_by_one)) (started (ask id))).
Proof.
  intros id [<-|[<-|[<-|[<-|[]]]]]; vm_compute; reflexivity.
Qed.

Example scenario_2 :
  forall id, In id ["gemini-1.5"; "gpt-4"; "claude-3-opus"; "meta/llama-2-70b-chat"]%string ->
  final (reply_world in_prose) (ask id)
  = with_loading false (with_result (Some (as_result null_deref)) (started (ask id))).
Proof.
  intros id [<-|[<-|[<-|[<-|[]]]]]; vm_compute; reflexivity.
Qed.

Example scenario_3 :
  forall id, In id ["gemini-1.5"; "gpt-4"; "claude-3-opus"; "meta/llama-2-70b-chat"]%string ->
  final (reply_world (lit "Sorry, I cannot help with that.")) (ask id)
  = with_loading false (with_error (lit "No JSON found in response") (started (ask id))).
Proof.
  intros id [<-|[<-|[<-|[<-|[]]]]]; vm_compute; reflexivity.
Qed.

Example serialized_off_by_one :
  serialize off_by_one
  = lit "{" ++ quoted "problem" ++ lit ":" ++ quoted "off-by-one" ++ lit ","
    ++ quoted "solution" ++ lit ":" ++ quoted "use < not <=" ++ lit ","
    ++ quoted "codeSnippet" ++ lit ":" ++ quoted "for(i=0;i<=n;i++)" ++ lit "}".
Proof. vm_compute. reflexivity. Qed.

(** Texts that are not JSON, and the answer [null]. *)
Example parse_rejects :
  JSON_parse (lit "01") = None
  /\ JSON_parse (lit "[1,]") = None
  /\ JSON_parse (lit "{" ++ quoted "a" ++ lit ":1,}") = None
  /\ JSON_parse (lit "1 2") = None
  /\ JSON_parse (lit "tru") = None
  /\ JSON_parse (lit "-") = None
  /\ JSON_parse (lit "1.") = None
  /\ JSON_parse (lit "1e") = None
  /\ JSON_parse (quoted "\x") = None
  /\ JSON_parse [34%N; 10%N; 34%N] = None
  /\ JSON_parse [] = None.
Proof. vm_compute. repeat split. Qed.

Example null_answer :
  final (reply_world (lit "null")) (ask "gemini-1.5")
  = with_loading false
      (with_error (lit "Cannot read properties of null (reading 'problem')")
         (started (ask "gemini-1.5"))).
Proof. vm_compute. reflexivity. Qed.

Example duplicate_key :
  JSON_parse (lit "{" ++ quoted "a" ++ lit ":1," ++ quoted "b" ++ lit ":2,"
              ++ quoted "a" ++ lit ":3}")
  = Some (JObj [(lit "a", JNum (mkNumber false [3%N] [] None));
                (lit "b", JNum (mkNumber false [2%N] [] None))]).
Proof. vm_compute. reflexivity. Qed.

Example zero_is_falsy :
  truthy (JSON_parse (lit "0.000e5")) = false
  /\ truthy (JSON_parse (lit "-0")) = false
  /\ truthy (JSON_parse (lit "1e-400")) = false
  /\ truthy (JSON_parse (lit "5e-324")) = true
  /\ truthy (JSON_parse (lit "2e-324")) = false.
Proof. vm_compute. repeat split. Qed.

Example parse_demo :
  JSON_parse (lit "{" ++ quoted "a" ++ lit ": [1, -2.50e+3, true, null, " ++ quoted "xA\n" ++ lit "] }")
  = Some (JObj [(lit "a",
       JArr [JNum (mkNumber false [1%N] [] None);
             JNum (mkNumber true [2%N] [5%N; 0%N] (Some (false, [3%N])));
             JBool true; JNull; JStr (lit "xA" ++ [10%N])])]).
Proof. vm_compute. reflexivity. Qed.

Example serialize_demo :
  serialize (JObj [(lit "a", JArr [JNum (mkNumber true [2%N] [5%N] (Some (false, [3%N]))); JNull]);
                   (lit "b", JStr [10%N; 34%N; 55357%N; 56832%N; 55357%N])])
  = lit "{" ++ quoted "a" ++ lit ":[-2.5e+3,null]," ++ quoted "b" ++ lit ":"
    ++ [34%N] ++ lit "\n\" ++ [34%N; 55357%N; 56832%N] ++ lit "\ud83d" ++ [34%N] ++ lit "}".
Proof. vm_compute. reflexivity. Qed.

Example parse_accepts :
  JSON_parse (lit "[]") = Some (JArr [])
  /\ JSON_parse (lit " { } ") = Some (JObj [])
  /\ JSON_parse (lit "[[],{}]") = Some (JArr [JArr []; JObj []])
  /\ JSON_parse (quoted "\u0041\uD83d\ude00\/") = Some (JStr [65%N; 55357%N; 56832%N; 47%N])
  /\ JSON_parse (lit "-0.5E-2") = Some (JNum (mkNumber true [0%N] [5%N] (Some (true, [2%N]))))
  /\ JSON_parse (lit "false") = Some (JBool false)
  /\ JSON_parse ([Ch.tab; Ch.lf] ++ lit "null" ++ [Ch.cr]) = Some JNull.
Proof. vm_compute. repeat split. Qed.

Example match_braces_demo :
  match_braces (lit "a } b { c } d { e } f { g") = Some (lit "{ c } d { e }")
  /\ match_braces (lit "} {") = None
  /\ match_braces (lit "no braces here") = None.
Proof. vm_compute. repeat split. Qed.

(** * The rest of the component *)

(** ** [startsWith] and [includes] *)

Lemma startsWith_prefix (s searchString : jsstring) :
  startsWith s searchString = true <-> exists r, s = searchString ++ r.
Proof.
  revert s; induction searchString as [|x p IH]; intros s.
  - destruct s; cbn [startsWith]; (split; [intros _; eexists; reflexivity | reflexivity]).
  - destruct s as [|c s']; cbn [startsWith].
    + split; [discriminate | intros [r H]; discriminate H].
    + split.
      * intro H. apply andb_true_iff in H as [H1 H2]. apply N.eqb_eq in H1.
        apply IH in H2 as [r ->]. subst c. exists r. reflexivity.
      * intros [r H]. injection H as -> ->. rewrite N.eqb_refl.
        apply IH. exists r. reflexivity.
Qed.

Lemma includes_embeds (s searchString : jsstring) :
  includes s searchString = true <-> embeds searchString s.
Proof.
  unfold embeds. induction s as [|c s' IH]; cbn [includes].
  - rewrite orb_false_r, startsWith_prefix. split.
    + intros [r H]. exists [], r. exact H.
    + intros (pre & post & H). symmetry in H.
      apply app_eq_nil in H as [-> H]. exists post. cbn. symmetry. exact H.
  - rewrite orb_true_iff, startsWith_prefix, IH. split.
    + intros [[r H] | (pre & post & H)].
      * exists [], r. exact H.
      * exists (c :: pre), post. rewrite H. reflexivity.
    + intros (pre & post & H). destruct pre as [|x pre].
      * left. exists post. exact H.
      * right. exists pre, post. cbn in H. injection H as _ H. exact H.
Qed.

Lemma startsWith_includes (s searchString : jsstring) :
  startsWith s searchString = true -> includes s searchString = true.
Proof. intro H. destruct s; cbn [includes]; rewrite H; reflexivity. Qed.

Lemma includes_tail (c : N) (s searchString : jsstring) :
  includes (c :: s) searchString = false -> includes s searchString = false.
Proof. cbn [includes]. intro H. apply orb_false_iff in H as [_ H]. exact H. Qed.

(** ** [getFunctionName] *)

Lemma strip_prefix_app (prefix s rest : jsstring) :
  strip_prefix prefix s = Some rest <-> s = prefix ++ rest.
Proof.
  revert s; induction prefix as [|x p IH]; intros s; cbn [strip_prefix app].
  - split; [intros [= ->]; reflexivity | intros ->; reflexivity].
  - destruct s as [|c s']; [split; discriminate|].
    destruct (N.eqb_spec c x) as [->|Hc].
    + rewrite IH. split; [intros ->; reflexivity | intros [= ->]; reflexivity].
    + split; [discriminate | intros [= E _]; contradiction].
Qed.

Lemma trimStart_split (s : jsstring) :
  exists ws, s = ws ++ trimStart s /\ blank ws = true
             /\ match trimStart s with
                | [] => True
                | c :: _ => js_whitespace c = false
                end.
Proof.
  induction s as [|c r (ws & E & B & H)]; cbn [trimStart].
  - exists []. repeat split.
  - destruct (js_whitespace c) eqn:W.
    + exists (c :: ws). cbn [app blank forallb]. rewrite W. fold (blank ws).
      rewrite B. repeat split; [congruence | exact H].
    + exists []. repeat split. exact W.
Qed.

Lemma take_word_split (s : jsstring) :
  exists post, s = take_word s ++ post /\ forallb is_word (take_word s) = true
               /\ match post with
                  | [] => True
                  | c :: _ => is_word c = false
                  end.
Proof.
  induction s as [|c r (post & E & A & H)]; cbn [take_word].
  - exists []. repeat split.
  - destruct (is_word c) eqn:W.
    + exists post. cbn [app forallb]. rewrite W, A. repeat split; [congruence | exact H].
    + exists (c :: r). repeat split. exact W.
Qed.

Lemma function_name_at_sound (s name : jsstring) :
  function_name_at s = Some name ->
  name <> [] /\ forallb is_word name = true
  /\ exists ws post,
       s = lit "function" ++ ws ++ name ++ post
       /\ ws <> [] /\ blank ws = true
       /\ match post with
          | [] => True
          | c :: _ => is_word c = false
          end.
Proof.
  unfold function_name_at. intro H.
  destruct (strip_prefix (lit "function") s) as [rest|] eqn:P; [|discriminate].
  apply strip_prefix_app in P.
  destruct rest as [|c rest']; [discriminate|].
  destruct (js_whitespace c) eqn:W; [|discriminate].
  destruct (take_word (trimStart (c :: rest'))) as [|x name'] eqn:T; [discriminate|].
  injection H as <-.
  destruct (trimStart_split (c :: rest')) as (ws & E & B & _).
  destruct (take_word_split (trimStart (c :: rest'))) as (post & E' & A & Hpost).
  rewrite T in E', A.
  split; [discriminate | split; [exact A|]].
  exists ws, post. repeat split; try assumption.
  - rewrite P, E at 1. rewrite E' at 1. reflexivity.
  - intros ->. cbn [app] in E. cbn [trimStart] in E. rewrite W in E.
    apply (f_equal (@List.length N)) in E.
    destruct (trimStart_split rest') as (ws' & E2 & _).
    apply (f_equal (@List.length N)) in E2. rewrite length_app in E2.
    cbn [List.length] in E. lia.
Qed.

(** X1. A name [getFunctionName] returns is not empty, is made of word
    characters, and stands in the code after the word "function" and at
    least one unit of white space; it is the whole word that stands there. *)
Theorem getFunctionName_sound (code name : jsstring) :
  getFunctionName code = Some name ->
  name <> [] /\ forallb is_word name = true
  /\ exists pre ws post,
       code = pre ++ lit "function" ++ ws ++ name ++ post
       /\ ws <> [] /\ blank ws = true
       /\ match post with
          | [] => True
          | c :: _ => is_word c = false
          end.
Proof.
  induction code as [|c r IH]; cbn [getFunctionName]; intro H.
  - destruct (function_name_at []) eqn:F; [|discriminate]. discriminate F.
  - destruct (function_name_at (c :: r)) as [n|] eqn:F.
    + injection H as ->.
      destruct (function_name_at_sound (c :: r) name F) as (N0 & A & ws & post & E & R).
      split; [exact N0 | split; [exact A|]].
      exists [], ws, post. split; [exact E | exact R].
    + destruct (IH H) as (N0 & A & pre & ws & post & E & R).
      split; [exact N0 | split; [exact A|]].
      exists (c :: pre), ws, post. split; [rewrite E; reflexivity | exact R].
Qed.

Lemma getFunctionName_sound_witness :
  getFunctionName (lit "export function  fib(n) { return n }") = Some (lit "fib")
  /\ lit "fib" <> []
  /\ exists pre ws post,
       lit "export function  fib(n) { return n }"
       = pre ++ lit "function" ++ ws ++ lit "fib" ++ post
       /\ ws <> [] /\ blank ws = true
       /\ match post with
          | [] => True
          | c :: _ => is_word c = false
          end.
Proof.
  split; [reflexivity|].
  destruct (getFunctionName_sound (lit "export function  fib(n) { return n }")
              (lit "fib") eq_refl) as (H1 & _ & H3).
  split; [exact H1 | exact H3].
Defined.

Lemma is_word_not_whitespace (c : N) : is_word c = true -> js_whitespace c = false.
Proof.
  intro H.
  assert (B : (c < N.of_nat 123)%N).
  { unfold is_word in H.
    repeat match goal with
           | H : (_ || _) = true |- _ => apply orb_true_iff in H as [H|H]
           | H : (_ && _) = true |- _ => apply andb_true_iff in H as [? ?]
           | H : N.leb _ _ = true |- _ => apply N.leb_le in H
           | H : N.eqb _ _ = true |- _ => apply N.eqb_eq in H
           end; lia. }
  assert (A : forallb (fun c => negb (is_word c) || negb (js_whitespace c))
                (map N.of_nat (seq 0 123)) = true) by (vm_compute; reflexivity).
  rewrite forallb_forall in A. specialize (A c (below_in 123 c B)).
  rewrite H in A. cbn [negb orb] in A. apply negb_true_iff in A. exact A.
Qed.

Lemma trimStart_blank_app (ws s : jsstring) :
  blank ws = true -> trimStart (ws ++ s) = trimStart s.
Proof.
  induction ws as [|c ws IH]; [reflexivity|].
  cbn [blank forallb app trimStart]. intro H.
  apply andb_true_iff in H as [H1 H2]. rewrite H1. exact (IH H2).
Qed.

(** X2. Where the code has the word "function", white space and a word, in
    this order, [getFunctionName] finds a name. *)
Theorem getFunctionName_complete (pre ws name post : jsstring) :
  ws <> [] -> blank ws = true -> name <> [] -> forallb is_word name = true ->
  exists found,
    getFunctionName (pre ++ lit "function" ++ ws ++ name ++ post) = Some found.
Proof.
  intros Hws Bws Hname Wname.
  assert (Here : exists found,
             function_name_at (lit "function" ++ ws ++ name ++ post) = Some found).
  { unfold function_name_at.
    assert (P : strip_prefix (lit "function") (lit "function" ++ ws ++ name ++ post)
                = Some (ws ++ name ++ post)) by (apply strip_prefix_app; reflexivity).
    rewrite P. destruct ws as [|w ws']; [congruence|].
    cbn [app]. cbn [blank forallb] in Bws.
    apply andb_true_iff in Bws as [Bw Bws']. rewrite Bw.
    change (w :: ws' ++ name ++ post) with ((w :: ws') ++ name ++ post).
    rewrite trimStart_blank_app
      by (cbn [blank forallb]; rewrite Bw; exact Bws').
    destruct name as [|x name']; [congruence|].
    cbn [forallb] in Wname. apply andb_true_iff in Wname as [Wx _].
    cbn [app trimStart]. rewrite (is_word_not_whitespace x Wx).
    cbn [take_word]. rewrite Wx. eexists. reflexivity. }
  induction pre as [|c pre IH].
  - destruct Here as [found F]. exists found. cbn [app].
    destruct (lit "function" ++ ws ++ name ++ post) eqn:E;
      cbn [getFunctionName]; rewrite F; reflexivity.
  - cbn [app getFunctionName].
    destruct (function_name_at (c :: pre ++ lit "function" ++ ws ++ name ++ post))
      as [n|]; [eexists; reflexivity | exact IH].
Qed.

Lemma getFunctionName_complete_witness :
  exists found,
    getFunctionName (lit "let f = " ++ lit "function" ++ [Ch.space; Ch.lf]
                     ++ lit "go" ++ lit "() {}") = Some found.
Proof.
  apply (getFunctionName_complete (lit "let f = ") [Ch.space; Ch.lf] (lit "go")
           (lit "() {}")); try reflexivity; discriminate.
Defined.

(** ** [analyzeComplexity] *)

Lemma fold_scan_lowered (toLowerCase : jsstring -> jsstring) (code : jsstring)
    (lines : list jsstring) (m : Markers) :
  fold_left (fun m line => scan_line code m (toLowerCase line)) lines m
  = fold_left (scan_line code) (map toLowerCase lines) m.
Proof.
  revert m; induction lines as [|l lines IH]; intro m; [reflexivity|].
  cbn [fold_left map]. apply IH.
Qed.

(** The markers after the loop, from the markers before it and the lines. *)
Lemma scan_markers (code : jsstring) (lines : list jsstring) (m : Markers) :
  let m' := fold_left (scan_line code) lines m in
  hasSingleLoop m' = hasSingleLoop m || Nat.leb 1 (count loop_line lines)
  /\ hasNestedLoops m'
     = hasNestedLoops m
       || (hasSingleLoop m && Nat.leb 1 (count loop_line lines))
       || Nat.leb 2 (count loop_line lines)
  /\ hasRecursion m' = hasRecursion m || existsb (recursion_line code) lines
  /\ hasExtraSpace m' = hasExtraSpace m || existsb extra_space_line lines
  /\ hasLinearSpace m' = hasLinearSpace m || existsb linear_space_line lines.
Proof.
  revert m; induction lines as [|l lines IH]; intro m.
  - cbn. rewrite !orb_false_r, andb_false_r, orb_false_r. repeat split.
  - cbn [fold_left]. destruct (IH (scan_line code m l)) as (H1 & H2 & H3 & H4 & H5).
    cbv zeta. rewrite H1, H2, H3, H4, H5. clear.
    unfold count. cbn [filter existsb scan_line hasSingleLoop hasNestedLoops
                         hasRecursion hasExtraSpace hasLinearSpace].
    destruct (loop_line l), (recursion_line code l), (extra_space_line l),
      (linear_space_line l), m as [n s r e ls]; cbn [List.length hasSingleLoop
        hasNestedLoops hasRecursion hasExtraSpace hasLinearSpace];
      destruct n, s, r, e, ls;
      destruct (List.length (filter loop_line lines)) as [|[|k]];
      repeat split.
Qed.

(** X3. The time [analyzeComplexity] reports depends on the number of lines
    that mention "for" or "while": quadratic for two such lines or more,
    however they stand to each other, linear for one; without any,
    exponential when a line is taken for a recursive call, constant
    otherwise. *)
Theorem time_by_loop_lines (toLowerCase : jsstring -> jsstring) (code : jsstring) :
  let lines := lowered_lines toLowerCase code in
  ComplexityResult.time (analyzeComplexity toLowerCase code)
  = if Nat.leb 2 (count loop_line lines) then quadratic
    else if Nat.leb 1 (count loop_line lines) then lit "O(n)"
    else if existsb (recursion_line code) lines then exponential
    else lit "O(1)".
Proof.
  cbv zeta. unfold analyzeComplexity, lowered_lines.
  rewrite fold_scan_lowered.
  destruct (scan_markers code (map toLowerCase (map trim (split_on Ch.lf code)))
              (mkMarkers false false false false false)) as (H1 & H2 & H3 & H4 & H5).
  cbv zeta in *. rewrite H1, H2, H3, H4, H5.
  cbn [hasSingleLoop hasNestedLoops hasRecursion hasExtraSpace hasLinearSpace
       orb andb].
  destruct (count loop_line _) as [|[|k]]; cbn [Nat.leb];
    destruct (existsb (recursion_line code) _),
      (existsb linear_space_line _), (existsb extra_space_line _); reflexivity.
Qed.

(** X4. The space [analyzeComplexity] reports is linear exactly when a line
    mentions "new array", "new map", "new set", "[]" or "{}", and the
    explanation ends with the sentence on the space then, the one on the
    creation of data structures first. *)
Theorem space_by_allocation_lines (toLowerCase : jsstring -> jsstring) (code : jsstring) :
  let lines := lowered_lines toLowerCase code in
  let r := analyzeComplexity toLowerCase code in
  ComplexityResult.space r
  = (if existsb linear_space_line lines || existsb extra_space_line lines
     then lit "O(n)" else lit "O(1)")
  /\ exists main,
       ComplexityResult.explanation r
       = main
         ++ (if existsb linear_space_line lines
             then lit " The space complexity is linear due to dynamic data structure creation."
             else if existsb extra_space_line lines
             then lit " The space complexity is linear due to auxiliary space usage."
             else []).
Proof.
  cbv zeta. unfold analyzeComplexity, lowered_lines.
  rewrite fold_scan_lowered.
  destruct (scan_markers code (map toLowerCase (map trim (split_on Ch.lf code)))
              (mkMarkers false false false false false)) as (H1 & H2 & H3 & H4 & H5).
  cbv zeta in *. rewrite H1, H2, H3, H4, H5.
  cbn [hasSingleLoop hasNestedLoops hasRecursion hasExtraSpace hasLinearSpace
       orb andb].
  destruct (count loop_line _) as [|[|k]]; cbn [Nat.leb];
    destruct (existsb (recursion_line code) _),
      (existsb linear_space_line _), (existsb extra_space_line _);
    (split; [reflexivity | eexists; rewrite ?app_nil_r; reflexivity]).
Qed.

Lemma lower_ascii_no_upper (s : jsstring) (c : N) :
  In c (lower_ascii s) -> is_upper c = false.
Proof.
  unfold lower_ascii. intro H. apply in_map_iff in H as (x & E & _).
  destruct (is_upper x) eqn:U; subst c; [|exact U].
  unfold is_upper in *. apply andb_true_iff in U as [U1 U2].
  apply N.leb_le in U1, U2. apply andb_false_iff. right. apply N.leb_gt. lia.
Qed.

(** X5. [analyzeComplexity] reports exponential time only for a code without
    a line that mentions a loop, in which [getFunctionName] finds a name,
    and which has a line with "return", "(" and that name. As the lines are
    compared in lower case and the name is not, a name with a capital
    letter is never found in them: no recursion is reported for it. *)
Theorem recursion_only_if (toLowerCase : jsstring -> jsstring) (code : jsstring) :
  (forall s c, In c (toLowerCase s) -> is_upper c = false) ->
  ComplexityResult.time (analyzeComplexity toLowerCase code) = exponential ->
  count loop_line (lowered_lines toLowerCase code) = 0%nat
  /\ exists name line,
       getFunctionName code = Some name
       /\ forallb (fun c => negb (is_upper c)) name = true
       /\ In line (lowered_lines toLowerCase code)
       /\ embeds name line /\ embeds (lit "return") line /\ embeds (lit "(") line.
Proof.
  intros Hlow Ht. rewrite time_by_loop_lines in Ht. cbv zeta in Ht.
  destruct (count loop_line (lowered_lines toLowerCase code)) as [|[|k]];
    cbn [Nat.leb] in Ht; try discriminate Ht.
  split; [reflexivity|].
  destruct (existsb (recursion_line code) (lowered_lines toLowerCase code)) eqn:E;
    [|discriminate Ht].
  apply existsb_exists in E as (line & Hin & R).
  unfold recursion_line in R.
  apply andb_true_iff in R as [R R3]. apply andb_true_iff in R as [R1 R2].
  destruct (getFunctionName code) as [name|]; [|discriminate].
  apply andb_true_iff in R3 as [_ R3].
  apply includes_embeds in R1, R2, R3.
  exists name, line. repeat split; try assumption.
  apply forallb_forall. intros c Hc. apply negb_true_iff.
  unfold lowered_lines in Hin. apply in_map_iff in Hin as (l0 & <- & _).
  apply (Hlow l0). destruct R3 as (pre & post & ->).
  apply in_or_app. right. apply in_or_app. left. exact Hc.
Qed.

Lemma recursion_only_if_witness :
  let code := lit "function fib(n) {" ++ [Ch.lf]
              ++ lit "  return fib(n - 1) + fib(n - 2);" ++ [Ch.lf] ++ lit "}" in
  ComplexityResult.time (analyzeComplexity lower_ascii code) = exponential
  /\ count loop_line (lowered_lines lower_ascii code) = 0%nat.
Proof.
  cbv zeta. split; [vm_compute; reflexivity|].
  apply (recursion_only_if lower_ascii
           (lit "function fib(n) {" ++ [Ch.lf]
            ++ lit "  return fib(n - 1) + fib(n - 2);" ++ [Ch.lf] ++ lit "}")).
  - exact lower_ascii_no_upper.
  - vm_compute. reflexivity.
Defined.

(** ** [parseSolutionText] *)

Lemma lazy_stars_prefix (s m : jsstring) :
  lazy_stars s = Some m -> exists rest, s = m ++ rest.
Proof.
  revert m; induction s as [|c r IH]; intros m H; [discriminate|].
  cbn [lazy_stars] in H.
  destruct (startsWith (c :: r) stars) eqn:S.
  - injection H as <-. apply startsWith_prefix. exact S.
  - destruct (line_terminator c); [discriminate|].
    destruct (lazy_stars r) as [m'|]; [|discriminate].
    injection H as <-. destruct (IH m' eq_refl) as [rest ->].
    exists rest. reflexivity.
Qed.

Lemma bold_at_prefix (s m : jsstring) :
  bold_at s = Some m -> exists m' rest, m = 42%N :: m' /\ s = m ++ rest.
Proof.
  unfold bold_at. intro H.
  destruct (startsWith s stars) eqn:S; [|discriminate].
  apply startsWith_prefix in S as [r ->]. cbn [skipn stars app] in H.
  destruct (lazy_stars r) as [x|] eqn:L; [|discriminate].
  injection H as <-. destruct (lazy_stars_prefix r x L) as [rest ->].
  exists (42%N :: x), rest. split; reflexivity.
Qed.

Lemma concat_split_bold (s : jsstring) :
  forall (skip : nat) (part : jsstring),
    List.concat (split_bold s skip part) = rev part ++ skipn skip s.
Proof.
  induction s as [|c r IH]; intros skip part.
  - cbn [split_bold List.concat]. rewrite skipn_nil, app_nil_r. reflexivity.
  - cbn [split_bold]. destruct skip as [|k].
    + destruct (bold_at (c :: r)) as [m|] eqn:B.
      * destruct (bold_at_prefix (c :: r) m B) as (m' & rest & -> & E).
        cbn [app] in E. injection E as -> ->.
        cbn [List.concat List.length]. rewrite IH.
        replace (S (List.length m') - 1)%nat with (List.length m') by lia.
        rewrite skipn_app, skipn_all, Nat.sub_diag. reflexivity.
      * rewrite IH. cbn [rev skipn]. rewrite <- app_assoc. reflexivity.
    + rewrite IH. reflexivity.
Qed.

(** X6. The split of [parseSolutionText] loses nothing: its pieces, put
    together again, are the text. *)
Theorem split_bold_lossless (text : jsstring) :
  List.concat (split_bold text 0 []) = text.
Proof. rewrite concat_split_bold. reflexivity. Qed.

Lemma split_bold_plain (text : jsstring) :
  forall part, includes text stars = false ->
               split_bold text 0 part = [rev part ++ text].
Proof.
  induction text as [|c r IH]; intros part H.
  - cbn [split_bold]. rewrite app_nil_r. reflexivity.
  - cbn [split_bold]. unfold bold_at.
    assert (S : startsWith (c :: r) stars = false).
    { destruct (startsWith (c :: r) stars) eqn:S; [|reflexivity].
      rewrite (startsWith_includes _ _ S) in H. discriminate H. }
    rewrite S, (IH (c :: part) (includes_tail c r stars H)).
    cbn [rev]. rewrite <- app_assoc. reflexivity.
Qed.

(** X7. A text without two asterisks in a row is rendered as it is, as one
    string. *)
Theorem parseSolutionText_plain (text : jsstring) :
  includes text stars = false -> parseSolutionText text = [plain text].
Proof.
  intro H. unfold parseSolutionText. rewrite (split_bold_plain text [] H).
  cbn [rev app render_parts].
  assert (S : startsWith text stars = false).
  { destruct (startsWith text stars) eqn:S; [|reflexivity].
    rewrite (startsWith_includes _ _ S) in H. discriminate H. }
  rewrite S. reflexivity.
Qed.

Lemma parseSolutionText_plain_witness :
  includes (lit "Use i < n, not i <= n * 2.") stars = false
  /\ parseSolutionText (lit "Use i < n, not i <= n * 2.")
     = [plain (lit "Use i < n, not i <= n * 2.")].
Proof.
  split; [reflexivity|].
  apply (parseSolutionText_plain (lit "Use i < n, not i <= n * 2.")). reflexivity.
Defined.

Lemma lazy_stars_body (b c : jsstring) :
  forallb (fun x => negb (N.eqb x 42) && negb (line_terminator x)) b = true ->
  lazy_stars (b ++ stars ++ c) = Some (b ++ stars).
Proof.
  induction b as [|x b IH]; intro H.
  - reflexivity.
  - cbn [forallb] in H. apply andb_true_iff in H as [Hx H].
    apply andb_true_iff in Hx as [H42 Hlt].
    apply negb_true_iff in H42, Hlt.
    cbn [app lazy_stars startsWith stars]. rewrite H42, Hlt. cbn [andb].
    change (stars ++ c) with (42%N :: 42%N :: c) in IH.
    rewrite (IH H). reflexivity.
Qed.

Lemma split_bold_skip (x rest part : jsstring) :
  split_bold (x ++ rest) (List.length x) part = split_bold rest 0 part.
Proof. induction x as [|c x IH]; [reflexivity | exact IH]. Qed.

Lemma split_bold_no_star (a s : jsstring) :
  forall part, forallb (fun x => negb (N.eqb x 42)) a = true ->
               split_bold (a ++ s) 0 part = split_bold s 0 (rev a ++ part).
Proof.
  induction a as [|x a IH]; intros part H; [reflexivity|].
  cbn [forallb] in H. apply andb_true_iff in H as [Hx H].
  apply negb_true_iff in Hx.
  cbn [app split_bold]. unfold bold_at. cbn [startsWith stars]. rewrite Hx.
  cbn [andb]. rewrite (IH (x :: part) H). cbn [rev]. rewrite <- app_assoc.
  reflexivity.
Qed.

(** After a match the split goes on behind it. *)
Lemma split_bold_match (s m part : jsstring) :
  bold_at s = Some m ->
  split_bold s 0 part
  = rev part :: m :: split_bold (skipn (List.length m) s) 0 [].
Proof.
  intro B. destruct (bold_at_prefix s m B) as (m' & rest & -> & ->).
  cbn [app split_bold]. change (42%N :: m' ++ rest) with ((42%N :: m') ++ rest).
  rewrite B. cbn [List.length app skipn].
  replace (S (List.length m') - 1)%nat with (List.length m') by lia.
  rewrite split_bold_skip, skipn_app, skipn_all, Nat.sub_diag. reflexivity.
Qed.

(** X8. A piece between two pairs of asterisks is rendered in bold, without
    the asterisks, and the text before and after it as it is: for [a] and
    [b] without an asterisk, [b] without a line break, and [c] without two
    asterisks in a row. *)
Theorem parseSolutionText_bold (a b c : jsstring) :
  forallb (fun x => negb (N.eqb x 42)) a = true ->
  forallb (fun x => negb (N.eqb x 42) && negb (line_terminator x)) b = true ->
  includes c stars = false ->
  parseSolutionText (a ++ stars ++ b ++ stars ++ c)
  = [plain a; strong 1 b; plain c].
Proof.
  intros Ha Hb Hc. unfold parseSolutionText.
  rewrite (split_bold_no_star a _ [] Ha), app_nil_r.
  assert (B : bold_at (stars ++ b ++ stars ++ c) = Some (stars ++ b ++ stars)).
  { unfold bold_at. cbn [stars app startsWith skipn]. rewrite !N.eqb_refl.
    cbn [andb]. change (42%N :: 42%N :: c) with (stars ++ c).
    rewrite (lazy_stars_body b c Hb). reflexivity. }
  rewrite (split_bold_match _ _ _ B).
  replace (skipn (List.length (stars ++ b ++ stars)) (stars ++ b ++ stars ++ c))
    with c.
  2:{ replace (stars ++ b ++ stars ++ c) with ((stars ++ b ++ stars) ++ c)
        by (rewrite <- !app_assoc; reflexivity).
      rewrite skipn_app, skipn_all, Nat.sub_diag. reflexivity. }
  rewrite (split_bold_plain c [] Hc), rev_involutive.
  cbn [rev app render_parts].
  assert (Sa : startsWith a stars = false).
  { destruct a as [|x a']; [reflexivity|].
    cbn [forallb] in Ha. apply andb_true_iff in Ha as [Hx _].
    apply negb_true_iff in Hx. cbn [startsWith stars]. rewrite Hx. reflexivity. }
  assert (Sc : startsWith c stars = false).
  { destruct (startsWith c stars) eqn:S; [|reflexivity].
    rewrite (startsWith_includes _ _ S) in Hc. discriminate Hc. }
  assert (Sm : startsWith (stars ++ b ++ stars) stars = true)
    by (apply startsWith_prefix; eexists; reflexivity).
  assert (Em : endsWith (stars ++ b ++ stars) stars = true).
  { unfold endsWith. apply startsWith_prefix. exists (rev b ++ rev stars).
    rewrite !rev_app_distr, <- app_assoc. reflexivity. }
  rewrite Sa, Sc, Sm, Em. cbn [andb].
  assert (Sl : slice_2_m2 (stars ++ b ++ stars) = b).
  { unfold slice_2_m2. cbn [stars app skipn List.length].
    rewrite length_app.
    replace (S (S (List.length b + List.length stars)) - 4)%nat
      with (List.length b) by (cbn [stars List.length]; lia).
    rewrite firstn_app, firstn_all, Nat.sub_diag. cbn [firstn].
    apply app_nil_r. }
  rewrite Sl. reflexivity.
Qed.

Lemma parseSolutionText_bold_witness :
  parseSolutionText (lit "Replace " ++ stars ++ lit "<=" ++ stars ++ lit " by *<*.")
  = [plain (lit "Replace "); strong 1 (lit "<="); plain (lit " by *<*.")].
Proof.
  apply (parseSolutionText_bold (lit "Replace ") (lit "<=") (lit " by *<*."));
    reflexivity.
Defined.

(** ** More on the dispatch *)

(** X9. A result is shown only after the validator has returned it: when a
    dispatch with its fields filled in ends with a result, the error is
    empty, the trace has the four stages, the extractor has returned a value
    from the text of the provider and [validateDebugResult] has made the
    result of that value. *)
Theorem success_is_validated (w : World) (st : AppState) (r : DebugResult.t) :
  missing_field st = false ->
  result (final w st) = Some r ->
  error (final w st) = []
  /\ exists req text v,
       trace w st = [EvLookup (model st); EvCall req; EvExtract text; EvValidate v]
       /\ extractJsonFromText text = inr v
       /\ validateDebugResult v = inr r.
Proof.
  intro Hf. unfold final, trace. unfold_dispatch. rewrite Hf. cbn -[lit].
  destruct (find_model (model st)) as [[v l []]|]; cbn -[lit];
    split_cases; intro H; try discriminate H; injection H as <-;
    (split; [reflexivity | do 3 eexists; split; [reflexivity | split; eassumption]]).
Qed.

Lemma success_is_validated_witness :
  let w := reply_world in_prose in
  let st := ask "claude-3-opus" in
  missing_field st = false
  /\ result (final w st) = Some (as_result null_deref)
  /\ error (final w st) = [].
Proof.
  cbv zeta. split; [reflexivity | split; [vm_compute; reflexivity|]].
  apply (success_is_validated (reply_world in_prose) (ask "claude-3-opus")
           (as_result null_deref)).
  - reflexivity.
  - vm_compute. reflexivity.
Defined.

(** X10. [handleDebug] never changes the code, the problem, the API key or
    the model, throws nothing, and, once the fields are filled in, leaves
    [loading] off whatever happened: the button is enabled again. *)
Theorem dispatch_frame (w : World) (st : AppState) :
  same_inputs (final w st) st
  /\ escaped w st = None
  /\ (missing_field st = false -> loading (final w st) = false).
Proof.
  split; [|split; [apply never_escapes|]].
  - unfold same_inputs, final. unfold_dispatch.
    destruct (missing_field st); [repeat split|].
    cbn -[lit]. destruct (find_model (model st)) as [[v l []]|]; cbn -[lit];
      split_cases; repeat split.
  - intro Hf. unfold final. unfold_dispatch. rewrite Hf.
    cbn -[lit]. destruct (find_model (model st)) as [[v l []]|]; cbn -[lit];
      split_cases; reflexivity.
Qed.

Lemma dispatch_frame_witness :
  let w := failing_world NonError in
  let st := ask "gemini-1.5-flash" in
  missing_field st = false /\ loading (final w st) = false.
Proof.
  cbv zeta. split; [reflexivity|].
  apply (proj2 (proj2 (dispatch_frame (failing_world NonError)
                         (ask "gemini-1.5-flash")))).
  reflexivity.
Defined.

(** X11. After a dispatch with its fields filled in the page never shows an
    error and a result together. *)
Theorem error_or_result (w : World) (st : AppState) :
  missing_field st = false ->
  shows_error (final w st) && shows_result (final w st) = false.
Proof.
  intro Hf. unfold final, shows_error, shows_result. unfold_dispatch. rewrite Hf.
  cbn -[lit]. destruct (find_model (model st)) as [[v l []]|]; cbn -[lit];
    split_cases; cbn -[lit]; rewrite ?andb_false_r; reflexivity.
Qed.

Lemma error_or_result_witness :
  let w := reply_world (lit "Sorry, I cannot help with that.") in
  let st := ask "gpt-4" in
  missing_field st = false
  /\ shows_error (final w st) && shows_result (final w st) = false.
Proof.
  cbv zeta. split; [reflexivity|].
  apply (error_or_result (reply_world (lit "Sorry, I cannot help with that."))
           (ask "gpt-4")).
  reflexivity.
Defined.

(** X12. A second click with the same form and the same answers of the
    providers ends in the same state with the same trace. *)
Theorem dispatch_idempotent (w : World) (st : AppState) :
  final w (final w st) = final w st /\ trace w (final w st) = trace w st.
Proof.
  assert (Same : forall st', same_inputs st' st -> missing_field st = false ->
                             dispatch w st' = dispatch w st).
  { intros [c p a m l r e] (Hc & Hp & Ha & Hm) Hf. cbn in Hc, Hp, Ha, Hm. subst.
    unfold_dispatch. unfold missing_field in *. cbn [code problem apiKey] in *.
    rewrite Hf. reflexivity. }
  destruct (missing_field st) eqn:Hf.
  - unfold final, trace. rewrite (dispatch_missing_field w st Hf). cbn [fst snd].
    rewrite dispatch_missing_field; [split; reflexivity|].
    exact Hf.
  - unfold final at 1, trace at 1.
    rewrite (Same (final w st) (proj1 (dispatch_frame w st)) eq_refl).
    split; reflexivity.
Qed.

(** ** The form *)

(** X13. [handleClear] empties the code, the problem, the API key, the
    result and the error and keeps the selected model; a click on the debug
    button after it calls no provider and asks to fill in the fields. *)
Theorem clear_then_debug (w : World) (st : AppState) :
  handleClear st [] = (inr tt, cleared st, [])
  /\ dispatch w (cleared st)
     = (inr tt, with_error (lit "Please fill in all fields") (cleared st), []).
Proof. split; reflexivity. Qed.

Lemma find_model_known (id : jsstring) :
  In id (map AIModel.value AI_MODELS) ->
  exists m, find_model id = Some m /\ AIModel.value m = id.
Proof.
  intro H. unfold find_model.
  destruct (find _ AI_MODELS) as [m|] eqn:F.
  - exists m. split; [reflexivity|].
    apply find_some in F as [_ F]. apply str_eqb_eq. exact F.
  - exfalso. apply in_map_iff in H as (m & <- & Hin).
    pose proof (find_none _ _ F m Hin) as N0. cbv beta in N0.
    rewrite str_eqb_refl in N0. discriminate N0.
Qed.

(** X14. The label and the placeholder of the key field are the neutral ones,
    "API Key" and "Enter API key...", exactly when the selected model is not
    in the catalog. *)
Theorem neutral_key_field (st : AppState) :
  (getApiKeyLabel st = lit "API Key"
   <-> ~ In (model st) (map AIModel.value AI_MODELS))
  /\ (getApiKeyPlaceholder st = lit "Enter API key..."
      <-> ~ In (model st) (map AIModel.value AI_MODELS)).
Proof.
  unfold getApiKeyLabel, getApiKeyPlaceholder.
  split; split.
  - intros H Hin. destruct (find_model_known _ Hin) as ([v l p] & F & _).
    rewrite F in H. destruct p; discriminate H.
  - intro H. rewrite (find_model_unknown _ H). reflexivity.
  - intros H Hin. destruct (find_model_known _ Hin) as ([v l p] & F & _).
    rewrite F in H. destruct p; discriminate H.
  - intro H. rewrite (find_model_unknown _ H). reflexivity.
Qed.

(** X15. [find_model] returns the model of the catalog with the identifier
    asked for, and finds every model of the catalog by its identifier: no
    identifier is there twice. *)
Theorem find_model_spec (id : jsstring) (m : AIModel.t) :
  find_model id = Some m <-> In m AI_MODELS /\ AIModel.value m = id.
Proof.
  split.
  - unfold find_model. intro F. apply find_some in F as [Hin F].
    apply str_eqb_eq in F. split; assumption.
  - intros [Hin <-]. cbn in Hin.
    repeat (destruct Hin as [<-|Hin]; [reflexivity|]). contradiction.
Qed.

(** ** More on the extractor and the validator *)

(** X16. The two errors of the extractor: "No JSON found in response" when
    the text is not JSON and has no closing brace after its first opening
    brace, "Could not parse JSON from response" when it has one and the
    text from the first opening brace to the last closing brace is not
    JSON. *)
Theorem extract_errors (text : jsstring) (e : thrown) :
  extractJsonFromText text = inl e ->
  JSON_parse text = None
  /\ e = ErrorObj (if has_braces text
                   then lit "Could not parse JSON from response"
                   else lit "No JSON found in response").
Proof.
  unfold extractJsonFromText, has_braces.
  destruct (JSON_parse text) as [v|]; [discriminate|].
  rewrite match_braces_slice.
  destruct (indexOf Ch.lbrace text) as [i|];
    [|intros [= <-]; split; reflexivity].
  destruct (lastIndexOf Ch.rbrace text) as [j|];
    [|intros [= <-]; split; reflexivity].
  destruct (Nat.ltb i j); [|intros [= <-]; split; reflexivity].
  destruct (JSON_parse (slice i (S j) text)); [discriminate|].
  intros [= <-]. split; reflexivity.
Qed.

Lemma extract_errors_witness :
  extractJsonFromText (lit "Use {x} here, not {y") 
  = inl (ErrorObj (lit "Could not parse JSON from response"))
  /\ has_braces (lit "Use {x} here, not {y") = true.
Proof.
  split; [|reflexivity].
  destruct (extract_errors (lit "Use {x} here, not {y")
              (ErrorObj (lit "Could not parse JSON from response")) eq_refl)
    as [_ H].
  reflexivity.
Defined.



(** X18. An answer that is JSON but neither an object nor [null] (an array,
    a string, a number, [true], [false]) passes the extractor and is refused
    by the validator with "Invalid response format". *)
Theorem non_object_refused (text : jsstring) (v : json) :
  JSON_parse text = Some v ->
  (forall m, v <> JObj m) -> v <> JNull ->
  extractJsonFromText text = inr v
  /\ validateDebugResult v = inl (ErrorObj (lit "Invalid response format")).
Proof.
  intros P Hobj Hnull. split.
  - unfold extractJsonFromText. rewrite P. reflexivity.
  - destruct v; try reflexivity; [congruence | exfalso; exact (Hobj m eq_refl)].
Qed.

Lemma non_object_refused_witness :
  let text := lit "[" ++ serialize off_by_one ++ lit "]" in
  JSON_parse text = Some (JArr [off_by_one])
  /\ validateDebugResult (JArr [off_by_one])
     = inl (ErrorObj (lit "Invalid response format")).
Proof.
  cbv zeta. split; [vm_compute; reflexivity|].
  apply (non_object_refused (lit "[" ++ serialize off_by_one ++ lit "]")
           (JArr [off_by_one])).
  - vm_compute. reflexivity.
  - intros m H. discriminate H.
  - discriminate.
Defined.

(** X19. An object with a non-empty string at each of the three keys is
    accepted, and the result holds the three strings as they are. *)
Theorem validate_accepts_strings (object : json) :
  three_nonempty_strings object = true ->
  validateDebugResult object = inr (as_result object)
  /\ exists p s c,
       as_result object
       = DebugResult.mk (Some (JStr p)) (Some (JStr s)) (Some (JStr c))
       /\ p <> [] /\ s <> [] /\ c <> [].
Proof.
  intro H. split.
  - apply (proj1 (proj2 (validate_truthy object))).
    apply (proj1 (proj2 (proj2 (validate_truthy object)))). exact H.
  - unfold three_nonempty_strings in H.
    apply andb_true_iff in H as [H H3]. apply andb_true_iff in H as [H1 H2].
    unfold as_result.
    destruct (prop object "problem") as [[ | | | [|x p] | | ]|]; try discriminate H1.
    destruct (prop object "solution") as [[ | | | [|y s] | | ]|]; try discriminate H2.
    destruct (prop object "codeSnippet") as [[ | | | [|z c] | | ]|]; try discriminate H3.
    exists (x :: p), (y :: s), (z :: c). repeat split; discriminate.
Qed.

Lemma validate_accepts_strings_witness :
  three_nonempty_strings off_by_one = true
  /\ validateDebugResult off_by_one = inr (as_result off_by_one).
Proof.
  split; [reflexivity|].
  apply (validate_accepts_strings off_by_one). reflexivity.
Defined.

(** X20. A value other than [null] in which one of the three keys is missing
    or holds the empty string is refused with "Invalid response format",
    whatever the other keys hold. *)
Theorem validate_refuses_missing_or_empty (object : json) (name : string) :
  object <> JNull ->
  name = "problem"%string \/ name = "solution"%string \/ name = "codeSnippet"%string ->
  prop object name = undefined \/ prop object name = Some (JStr []) ->
  validateDebugResult object = inl (ErrorObj (lit "Invalid response format")).
Proof.
  intros Hnull Hname Hval.
  destruct (validate_truthy object) as (_ & _ & _ & Hrefuse & Hfalsy).
  apply Hrefuse; [|exact Hnull]. exact (Hfalsy name Hname Hval).
Qed.

Lemma validate_refuses_missing_or_empty_witness :
  let object := JObj [(lit "problem", JStr (lit "off-by-one"));
                      (lit "solution", JStr []);
                      (lit "codeSnippet", JStr (lit "i <= n"))] in
  prop object "solution" = Some (JStr [])
  /\ validateDebugResult object = inl (ErrorObj (lit "Invalid response format")).
Proof.
  cbv zeta. split; [reflexivity|].
  apply (validate_refuses_missing_or_empty
           (JObj [(lit "problem", JStr (lit "off-by-one"));
                  (lit "solution", JStr []);
                  (lit "codeSnippet", JStr (lit "i <= n"))]) "solution").
  - discriminate.
  - right; left; reflexivity.
  - right; reflexivity.
Defined.

(** ** From the answer to the page *)

(** X21. Whichever model of the catalog is selected, a provider that answers
    with a non-empty text leads to the same page: the error of the
    extractor, else the error of the validator, else the result; the
    fallback messages of the handlers are not used. *)
Theorem dispatch_on_answer (text : jsstring) (st : AppState) :
  missing_field st = false ->
  In (model st) (map AIModel.value AI_MODELS) ->
  text <> [] ->
  final (reply_world text) st = with_loading false (answered text (started st)).
Proof.
  intros Hf Hin Ht. destruct (find_model_known _ Hin) as ([v l p] & F & _).
  destruct text as [|c text']; [congruence|].
  unfold final, answered. unfold_dispatch. rewrite Hf. cbn -[lit]. rewrite F.
  destruct (extractJsonFromText (c :: text')) as [e|x] eqn:E.
  - assert (Em : exists msg, e = ErrorObj msg).
    { unfold extractJsonFromText in E.
      destruct (JSON_parse (c :: text')); [discriminate|].
      destruct (match_braces (c :: text')) as [m|];
        [destruct (JSON_parse m); [discriminate|] |];
        injection E as <-; eexists; reflexivity. }
    destruct Em as [msg ->].
    destruct p; cbn -[lit]; rewrite ?E; reflexivity.
  - destruct (validateDebugResult x) as [e|r] eqn:V.
    + assert (Em : exists msg, e = ErrorObj msg).
      { unfold validateDebugResult in V.
        destruct x; try (injection V as <-; eexists; reflexivity);
          destruct (negb _ || negb _ || negb _); try discriminate;
          injection V as <-; eexists; reflexivity. }
      destruct Em as [msg ->].
      destruct p; cbn -[lit]; rewrite ?E; cbn -[lit]; rewrite ?V; reflexivity.
    + destruct p; cbn -[lit]; rewrite ?E; cbn -[lit]; rewrite ?V; reflexivity.
Qed.

Lemma dispatch_on_answer_witness :
  let st := ask "meta/llama-2-70b-chat" in
  missing_field st = false
  /\ final (reply_world in_prose) st
     = with_loading false (answered in_prose (started st)).
Proof.
  cbv zeta. split; [reflexivity|].
  apply (dispatch_on_answer in_prose (ask "meta/llama-2-70b-chat")).
  - reflexivity.
  - cbn. do 5 right. left. reflexivity.
  - discriminate.
Defined.

(** X22. When the constructor of the client throws, no call is made: the
    dispatch ends after the lookup with the message of the thrown error, or
    with "An error occurred" for a thrown value that is not an error, and
    with [loading] off. *)
Theorem client_constructor_throws (w : World) (st : AppState) (m : AIModel.t)
    (e : thrown) :
  missing_field st = false ->
  find_model (model st) = Some m ->
  new_client w (AIModel.provider m) (apiKey st) (model st) = Some e ->
  final w st
  = with_loading false
      (with_error (message_or (lit "An error occurred") e) (started st))
  /\ trace w st = [EvLookup (model st)].
Proof.
  intros Hf Hm Hc. unfold final, trace.
  rewrite (client_construction_failed w st m e Hf Hm Hc). split; reflexivity.
Qed.

Lemma client_constructor_throws_witness :
  let w := no_client_world NonError in
  let st := ask "claude-3-opus" in
  missing_field st = false
  /\ error (final w st) = lit "An error occurred"
  /\ trace w st = [EvLookup (model st)].
Proof.
  cbv zeta. split; [reflexivity|].
  destruct (client_constructor_throws (no_client_world NonError)
              (ask "claude-3-opus")
              (AIModel.mk (lit "claude-3-opus") (lit "Claude 3") anthropic)
              NonError) as [H1 H2]; try reflexivity.
  rewrite H1. split; [reflexivity | exact H2].
Defined.

(** ** The rest of the component at work *)

Example parseSolutionText_samples :
  parseSolutionText (lit "x **a** y **b**")
  = [plain (lit "x "); strong 1 (lit "a"); plain (lit " y "); strong 3 (lit "b");
     plain []]
  /\ parseSolutionText (lit "***a**") = [plain []; strong 1 (lit "*a"); plain []]
  /\ parseSolutionText (lit "*****") = [plain []; strong 1 []; plain (lit "*")]
  /\ parseSolutionText (lit "**a" ++ [Ch.lf] ++ lit "b**")
     = [strong 0 (lit "a" ++ [Ch.lf] ++ lit "b")]
  /\ parseSolutionText (lit "**") = [strong 0 []]
  /\ parseSolutionText [] = [plain []].
Proof. vm_compute. repeat split. Qed.

Example getFunctionName_samples :
  getFunctionName (lit "const f = function   Fib_1(n) {") = Some (lit "Fib_1")
  /\ getFunctionName (lit "function(a) {}; function  x") = Some (lit "x")
  /\ getFunctionName (lit "const f = (n) => n") = None
  /\ getFunctionName (lit "functions") = None.
Proof. vm_compute. repeat split. Qed.

Example analyzeComplexity_samples :
  ComplexityResult.time
    (analyzeComplexity lower_ascii (lit "FOR x" ++ [Ch.lf] ++ lit " format ")) = quadratic
  /\ ComplexityResult.time
       (analyzeComplexity lower_ascii
          (lit "function Fib(n) {" ++ [Ch.lf] ++ lit "  return Fib(n-1) + Fib(n-2); }"))
     = lit "O(1)"
  /\ analyzeComplexity lower_ascii (lit "let a = [];")
     = ComplexityResult.mk (lit "O(1)") (lit "O(n)")
         (lit "The code appears to have constant time and space complexity. The space complexity is linear due to auxiliary space usage.").
Proof. vm_compute. repeat split. Qed.

(** ** [JSON_stringify] at work *)

Example annotated_text :
  JSON_stringify annotated
  = Some (lit "{" ++ quoted "problem" ++ lit ":" ++ quoted "off-by-one" ++ lit ","
          ++ quoted "solution" ++ lit ":"
          ++ [Ch.dquote] ++ lit "use \" ++ [Ch.dquote] ++ lit "<\" ++ [Ch.dquote]
          ++ lit "\nnot \\<=" ++ [Ch.dquote] ++ lit ","
          ++ quoted "codeSnippet" ++ lit ":" ++ quoted "for(i=0;i<=n;i++)" ++ lit ","
          ++ quoted "line" ++ lit ":12,"
          ++ quoted "tags" ++ lit ":[" ++ quoted "loop" ++ lit ",true,null,0,{"
          ++ quoted "depth" ++ lit ":-3}]}").
Proof. vm_compute. reflexivity. Qed.

(** The values on which the literal does not tell the text: [1.0], [-0],
    [1e400], 2^53, and an object with a key made of digits. *)
Example JSON_stringify_undefined :
  option_map JSON_stringify (JSON_parse (lit "1.0")) = Some None
  /\ option_map JSON_stringify (JSON_parse (lit "[-0]")) = Some None
  /\ option_map JSON_stringify (JSON_parse (lit "1e400")) = Some None
  /\ option_map JSON_stringify (JSON_parse (lit "9007199254740992")) = Some None
  /\ option_map JSON_stringify (JSON_parse (lit "9007199254740991"))
     = Some (Some (lit "9007199254740991"))
  /\ option_map JSON_stringify
       (JSON_parse (lit "{" ++ quoted "b" ++ lit ":1," ++ quoted "2" ++ lit ":2}"))
     = Some None.
Proof. vm_compute. repeat split. Qed.
